(** * Framing-control analytics: a shallow embedding of [libanalyzer.py]

    The development follows the Python module function by function.
    Python values that the code really mixes (a string or a tuple, a string
    or a list, a string or [None]) are sums; exceptions are explicit in a
    small error monad; [urllib.parse.urlparse], which belongs to the Python
    standard library and not to the module, is a parameter of the
    development (section [Analyzer]) and has one concrete model
    ([py_urlparse]) on which examples are evaluated.

    Strings are sequences of characters whose code point is below 256;
    [str.lower], [str.strip] and [str.split] are modelled on that range. *)

From Stdlib Require Import String Ascii List Bool Arith Lia.
Import ListNotations.
Open Scope list_scope.
Open Scope string_scope.

(** ** Exceptions and the error monad *)

Inductive exn : Type :=
| ValueError
| IndexError
| AttributeError
| KeyError
| SystemExit.

Inductive exc (A : Type) : Type :=
| Ok (a : A)
| Raise (e : exn).

Arguments Ok {A} a.
Arguments Raise {A} e.

Definition bind {A B : Type} (m : exc A) (k : A -> exc B) : exc B :=
  match m with
  | Ok a => k a
  | Raise e => Raise e
  end.

Notation "x <- m ;; k" := (bind m (fun x => k))
  (at level 61, m at next level, right associativity).

Definition returns {A : Type} (m : exc A) : Prop := exists a, m = Ok a.

(** ** Python string operations *)

Module PyString.

(** the characters [str.lower] changes: [A]-[Z] and the capital letters
    U+00C0-U+00DE but the multiplication sign U+00D7; each moves up by 32 *)
Definition is_upper (c : ascii) : bool :=
  let n := nat_of_ascii c in
  (((65 <=? n) && (n <=? 90))
   || ((192 <=? n) && (n <=? 214))
   || ((216 <=? n) && (n <=? 222)))%nat.

Definition lower_char (c : ascii) : ascii :=
  if is_upper c then ascii_of_nat (nat_of_ascii c + 32) else c.

(** [s.lower()] *)
Fixpoint lower (s : string) : string :=
  match s with
  | EmptyString => EmptyString
  | String c s' => String (lower_char c) (lower s')
  end.

(** [c.isspace()]: TAB, LF, VT, FF, CR, FS, GS, RS, US, the space, NEL
    (U+0085) and the no-break space (U+00A0). *)
Definition is_space (c : ascii) : bool :=
  let n := nat_of_ascii c in
  (((9 <=? n) && (n <=? 13)) || ((28 <=? n) && (n <=? 32))
   || (n =? 133) || (n =? 160))%nat.

Fixpoint lstrip (s : string) : string :=
  match s with
  | EmptyString => EmptyString
  | String c s' => if is_space c then lstrip s' else s
  end.

Fixpoint rstrip (s : string) : string :=
  match s with
  | EmptyString => EmptyString
  | String c s' =>
      match rstrip s' with
      | EmptyString => if is_space c then EmptyString else String c EmptyString
      | r => String c r
      end
  end.

(** [s.strip()] *)
Definition strip (s : string) : string := rstrip (lstrip s).

(** [s.split(sep)] for a separator of one character: never empty. *)
Fixpoint split (sep : ascii) (s : string) : list string :=
  match s with
  | EmptyString => [EmptyString]
  | String c s' =>
      if Ascii.eqb c sep then EmptyString :: split sep s'
      else match split sep s' with
           | t :: ts => String c t :: ts
           | [] => [String c EmptyString]
           end
  end.

(** [s.split()]: runs of white space separate, no empty token. *)
Fixpoint split_ws (s : string) : list string :=
  match s with
  | EmptyString => []
  | String c s' =>
      if is_space c then split_ws s'
      else match s' with
           | EmptyString => [String c EmptyString]
           | String c' _ =>
               if is_space c' then String c EmptyString :: split_ws s'
               else match split_ws s' with
                    | t :: ts => String c t :: ts
                    | [] => [String c EmptyString]
                    end
           end
  end.

(** [sep.join(l)] *)
Fixpoint join (sep : string) (l : list string) : string :=
  match l with
  | [] => EmptyString
  | [t] => t
  | t :: ts => t ++ sep ++ join sep ts
  end.

(** [s.startswith(p)] *)
Definition startswith (s p : string) : bool := String.prefix p s.

(** [s.endswith(x)] *)
Fixpoint endswith (s x : string) : bool :=
  if String.eqb s x then true
  else match s with
       | EmptyString => false
       | String _ s' => endswith s' x
       end.

(** [l[i]] on a list *)
Definition index {A : Type} (l : list A) (i : nat) : exc A :=
  match nth_error l i with
  | Some a => Ok a
  | None => Raise IndexError
  end.

(** [s[i]] on a string: a string of one character *)
Definition char_at (s : string) (i : nat) : exc string :=
  match String.get i s with
  | Some c => Ok (String c EmptyString)
  | None => Raise IndexError
  end.

(** the characters of a string, as iteration yields them *)
Fixpoint chars (s : string) : list string :=
  match s with
  | EmptyString => []
  | String c s' => String c EmptyString :: chars s'
  end.

(** [x in l] for strings *)
Definition mem (x : string) (l : list string) : bool :=
  existsb (String.eqb x) l.

End PyString.

Import PyString.

Example lower_ex : lower "ALLOW-FROM https://A.b" = "allow-from https://a.b".
Proof. reflexivity. Qed.

Example strip_ex : strip "  deny " = "deny".
Proof. reflexivity. Qed.

Example split_ex : split " " "allow-from  x" = ["allow-from"; ""; "x"].
Proof. reflexivity. Qed.

Example split_ws_ex : split_ws " a  b " = ["a"; "b"].
Proof. reflexivity. Qed.

Example split_ws_empty : split_ws "   " = [].
Proof. reflexivity. Qed.

Example strip_nbsp :
  strip (String (ascii_of_nat 160) "deny") = "deny"
  /\ split_ws (String "a" (String (ascii_of_nat 133) "b")) = ["a"; "b"]
  /\ lower (String (ascii_of_nat 192) "") = String (ascii_of_nat 224) ""
  /\ lower (String (ascii_of_nat 215) "") = String (ascii_of_nat 215) "".
Proof. repeat split; reflexivity. Qed.

Example join_ex : join "." ["a"; "b"; "c"] = "a.b.c".
Proof. reflexivity. Qed.

Example endswith_ex : endswith "a.b.example.com" ".example.com" = true.
Proof. reflexivity. Qed.

(** ** Values *)

(** A value that is [None] or a string. *)
Inductive pyval : Type :=
| PyNone
| PyStr (s : string).

Definition pyval_eqb (a b : pyval) : bool :=
  match a, b with
  | PyNone, PyNone => true
  | PyStr s, PyStr t => String.eqb s t
  | _, _ => false
  end.

(** The object [is_valid_origin] receives: its two attributes, each of which
    may be absent (reading it then raises [AttributeError]). *)
Record urlobj : Type := mk_urlobj {
  attr_scheme : option pyval;
  attr_hostname : option pyval
}.

(** What [urlparse] returns on a string: [scheme] is a string, [hostname] is
    a string or [None]. *)
Record ParseResult : Type := mk_parse {
  scheme : string;
  hostname : option string
}.

Definition host_val (h : option string) : pyval :=
  match h with
  | Some s => PyStr s
  | None => PyNone
  end.

Definition as_obj (u : ParseResult) : urlobj :=
  mk_urlobj (Some (PyStr (scheme u))) (Some (host_val (hostname u))).

Definition getattr (a : option pyval) : exc pyval :=
  match a with
  | Some v => Ok v
  | None => Raise AttributeError
  end.

Definition py_startswith (v : pyval) (p : string) : exc bool :=
  match v with
  | PyStr s => Ok (startswith s p)
  | PyNone => Raise AttributeError
  end.

(** ** [is_valid_origin] *)

(** The body of the [try] block. *)
Definition is_valid_origin_try (uo : urlobj) : exc bool :=
  s1 <- getattr (attr_scheme uo) ;;
  valid_scheme <-
    (if pyval_eqb s1 (PyStr "http") then Ok true
     else s2 <- getattr (attr_scheme uo) ;; Ok (pyval_eqb s2 (PyStr "https"))) ;;
  h1 <- getattr (attr_hostname uo) ;;
  valid_hostname <-
    (if negb (pyval_eqb h1 (PyStr ""))
     then h2 <- getattr (attr_hostname uo) ;;
          b <- py_startswith h2 "*." ;;
          Ok (negb b)
     else Ok false) ;;
  Ok (valid_scheme && valid_hostname).

(** [except Exception]: every exception of the body gives [False]. *)
Definition is_valid_origin (uo : urlobj) : bool :=
  match is_valid_origin_try uo with
  | Ok b => b
  | Raise _ => false
  end.

(** ** Policy expressions and normalized header values *)

(** An expression is a string (['*'], ['none'], or a character of the string
    ["JUNK"] when that string is iterated) or a pair [(scheme, host)] whose
    host is a string or [None]. *)
Inductive exp : Type :=
| EStr (s : string)
| ETup (sch : string) (host : option string).

(** What [normalize_xfo] returns: a string or a pair [(tag, origin)]. *)
Inductive xfo_value : Type :=
| XStr (s : string)
| XTup (tag : string) (origin : exp).

(** What [normalize_csp] and the translators return: the string ["JUNK"] or
    a list of expressions. *)
Inductive value : Type :=
| VStr (s : string)
| VList (l : list exp).

Definition option_eqb {A : Type} (eqb : A -> A -> bool) (a b : option A) : bool :=
  match a, b with
  | Some x, Some y => eqb x y
  | None, None => true
  | _, _ => false
  end.

(** Python's [==] on these values is structural; a string never equals a
    tuple or a list. *)
Definition exp_eqb (a b : exp) : bool :=
  match a, b with
  | EStr s, EStr t => String.eqb s t
  | ETup s h, ETup t k => String.eqb s t && option_eqb String.eqb h k
  | _, _ => false
  end.

Definition xfo_eqb (a b : xfo_value) : bool :=
  match a, b with
  | XStr s, XStr t => String.eqb s t
  | XTup s e, XTup t f => String.eqb s t && exp_eqb e f
  | _, _ => false
  end.

Fixpoint list_eqb {A : Type} (eqb : A -> A -> bool) (l m : list A) : bool :=
  match l, m with
  | [], [] => true
  | a :: l', b :: m' => eqb a b && list_eqb eqb l' m'
  | _, _ => false
  end.

Definition value_eqb (a b : value) : bool :=
  match a, b with
  | VStr s, VStr t => String.eqb s t
  | VList l, VList m => list_eqb exp_eqb l m
  | _, _ => false
  end.

(** [e[0]] and [e[1]] on an expression. *)
Definition exp_item0 (e : exp) : exc pyval :=
  match e with
  | EStr s => c <- char_at s 0 ;; Ok (PyStr c)
  | ETup sch _ => Ok (PyStr sch)
  end.

Definition exp_item1 (e : exp) : exc pyval :=
  match e with
  | EStr s => c <- char_at s 1 ;; Ok (PyStr c)
  | ETup _ h => Ok (host_val h)
  end.

(** [x[0]] and [x[1]] on a normalized legacy value. *)
Definition xfo_item0 (x : xfo_value) : exc string :=
  match x with
  | XStr s => char_at s 0
  | XTup tag _ => Ok tag
  end.

Definition xfo_item1 (x : xfo_value) : exc exp :=
  match x with
  | XStr s => c <- char_at s 1 ;; Ok (EStr c)
  | XTup _ o => Ok o
  end.

(** The elements a [for] loop over a value visits. *)
Definition items (v : value) : list exp :=
  match v with
  | VStr s => map EStr (chars s)
  | VList l => l
  end.

(** ** The ordering *)

Definition py_split (v : pyval) (sep : ascii) : exc (list string) :=
  match v with
  | PyStr s => Ok (split sep s)
  | PyNone => Raise AttributeError
  end.

Definition py_endswith (v : pyval) (x : string) : exc bool :=
  match v with
  | PyStr s => Ok (endswith s x)
  | PyNone => Raise AttributeError
  end.

Definition leq_host (h1 h2 : pyval) : exc bool :=
  if pyval_eqb h1 h2 then Ok true
  else if pyval_eqb h2 (PyStr "*") then Ok true
  else if pyval_eqb h1 (PyStr "*") then Ok false
  else
    tokens1 <- py_split h1 "." ;;
    tokens2 <- py_split h2 "." ;;
    t1 <- index tokens1 0 ;;
    if String.eqb t1 "*" then
      t2 <- index tokens2 0 ;;
      if String.eqb t2 "*"
      then py_endswith h1 ("." ++ join "." (tl tokens2))
      else Ok false
    else
      t2 <- index tokens2 0 ;;
      if String.eqb t2 "*"
      then py_endswith h1 ("." ++ join "." (tl tokens2))
      else Ok false.

Definition leq_exp (e1 e2 : exp) : exc bool :=
  if exp_eqb e1 e2 then Ok true
  else if exp_eqb e2 (EStr "*") then Ok true
  else if exp_eqb e1 (EStr "*") then Ok false
  else if exp_eqb e2 (EStr "none") then Ok false
  else if exp_eqb e1 (EStr "none") then Ok true
  else
    a <- exp_item0 e1 ;;
    b <- exp_item0 e2 ;;
    if pyval_eqb a b
    then h1 <- exp_item1 e1 ;;
         h2 <- exp_item1 e2 ;;
         leq_host h1 h2
    else Ok false.

(** The inner loop of [leq_val]: it has no [break], every element of [v2]
    is compared. *)
Fixpoint leq_val_inner (e1 : exp) (l2 : list exp) (found : bool) : exc bool :=
  match l2 with
  | [] => Ok found
  | e2 :: l2' =>
      b <- leq_exp e1 e2 ;;
      leq_val_inner e1 l2' (if b then true else found)
  end.

Fixpoint leq_val_outer (l1 l2 : list exp) : exc bool :=
  match l1 with
  | [] => Ok true
  | e1 :: l1' =>
      found <- leq_val_inner e1 l2 false ;;
      if negb found then Ok false else leq_val_outer l1' l2
  end.

Definition leq_val (v1 v2 : value) : exc bool :=
  leq_val_outer (items v1) (items v2).

Definition meet (e1 e2 : exp) : exc exp :=
  b1 <- leq_exp e1 e2 ;;
  if b1 then Ok e1
  else b2 <- leq_exp e2 e1 ;;
       if b2 then Ok e2 else Ok (EStr "none").

Example leq_host_sub :
  leq_host (PyStr "a.b.example.com") (PyStr "*.example.com") = Ok true.
Proof. reflexivity. Qed.

Example leq_host_bare :
  leq_host (PyStr "example.com") (PyStr "*.example.com") = Ok false.
Proof. reflexivity. Qed.

Example leq_host_none :
  leq_host (PyStr "a.com") PyNone = Raise AttributeError.
Proof. reflexivity. Qed.

Example meet_distinct :
  meet (ETup "https" (Some "a.com")) (ETup "https" (Some "b.com")) = Ok (EStr "none").
Proof. reflexivity. Qed.

(** ** Reports and their classification *)

(** The dictionary [{"xfo": [...], "csp": [...]}] of enforced values. *)
Record semantics : Type := mk_semantics {
  sem_xfo : list value;
  sem_csp : list value
}.

Definition is_inconsistent (s : semantics) : exc bool :=
  if ((1 <? length (sem_xfo s)) || (1 <? length (sem_csp s)))%nat then Ok true
  else if ((length (sem_xfo s) =? 1) && (length (sem_csp s) =? 1))%nat then
    v1 <- index (sem_xfo s) 0 ;;
    v2 <- index (sem_csp s) 0 ;;
    a <- leq_val v1 v2 ;;
    if negb a then Ok true
    else b <- leq_val v2 v1 ;; Ok (negb b)
  else Ok false.

Definition is_sec_oriented (s : semantics) : exc bool :=
  if ((1 <? length (sem_xfo s)) || (1 <? length (sem_csp s)))%nat then Ok false
  else if ((length (sem_xfo s) =? 0) || (length (sem_csp s) =? 0))%nat then Ok true
  else
    v1 <- index (sem_xfo s) 0 ;;
    v2 <- index (sem_csp s) 0 ;;
    leq_val v1 v2.

Definition is_comp_oriented (s : semantics) : exc bool :=
  if ((1 <? length (sem_xfo s)) || (1 <? length (sem_csp s)))%nat then Ok false
  else if ((length (sem_xfo s) =? 0) || (length (sem_csp s) =? 0))%nat then Ok true
  else
    v1 <- index (sem_xfo s) 0 ;;
    v2 <- index (sem_csp s) 0 ;;
    leq_val v2 v1.

(** ** Header parsing *)

Definition parse_xfo (s : string) : option string :=
  if String.eqb s "WARN_NO_HEADER" then None else Some (strip s).

Definition parse_csp (s : string) : option (list string) :=
  if String.eqb s "WARN_NO_HEADER" then None else Some (split_ws (strip s)).

(** The dictionary [{"xfo": [...], "csp": [...]}] of raw header values a
    browser received. *)
Record policies : Type := mk_policies {
  xfo : list string;
  csp : list string
}.

(** ** User-Agent strings *)

Definition FIREFOX : string :=
  "Mozilla/5.0 (Windows NT 10.0; Win64; x64; rv:67.0) Gecko/20100101 Firefox/67.0".
Definition CHROME : string :=
  "Mozilla/5.0 (Windows NT 10.0; Win64; x64) AppleWebKit/537.36 (KHTML, like Gecko) Chrome/77.0.3865.75 Safari/537.36".
Definition SAFARI : string :=
  "Mozilla/5.0 (Macintosh; Intel Mac OS X 10_14_4) AppleWebKit/605.1.15 (KHTML, like Gecko) Version/12.1 Safari/605.1.15".
Definition SAFARI_IOS : string :=
  "Mozilla/5.0 (iPhone; CPU iPhone OS 12_4 like Mac OS X) AppleWebKit/605.1.15 (KHTML, like Gecko) Version/12.1.2 Mobile/15E148 Safari/604.1".
Definition SAMSUNG : string :=
  "Mozilla/5.0 (Linux; Android 9; SAMSUNG SM-G960U Build/PPR1.180610.011) AppleWebKit/537.36 (KHTML, like Gecko) SamsungBrowser/9.4 Chrome/67.0.3396.87 Mobile Safari/537.36".
Definition UC_BROWSER : string :=
  "Mozilla/5.0 (Linux; U; Android 7.0; es-LA; Moto C Build/NRD90M.068) AppleWebKit/537.36 (KHTML, like Gecko) Version/4.0 Chrome/57.0.2987.108 UCBrowser/12.9.5.1146 Mobile Safari/537.36".
Definition IE : string :=
  "Mozilla/5.0 (Windows NT 6.1; WOW64; Trident/7.0; rv:11.0) like Gecko".
Definition OPERA_MINI : string :=
  "Opera/9.80 (Android; Opera Mini/12.0.1987/37.7327; U; pl) Presto/2.12.423 Version/12.16".
Definition EDGE : string :=
  "Mozilla/5.0 (Windows NT 10.0; Win64; x64) AppleWebKit/537.36 (KHTML, like Gecko) Chrome/64.0.3282.140 Safari/537.36 Edge/18.17763".

Definition just_xfo (b : string) : bool := mem b [IE; OPERA_MINI].

(** ** Normalization and translation, for any [urlparse] *)

Section Analyzer.

(** [urllib.parse.urlparse] on a string: a parse result, or [ValueError]. *)
Variable urlparse : string -> exc ParseResult.

(** The first lines of both normalizers: [o] with [https:] in front when it
    is protocol-relative. *)
Definition fix_origin (o : string) : string :=
  if startswith o "//" then "https:" ++ o else o.

Definition normalize_xfo (v o : string) : exc xfo_value :=
  let o := fix_origin o in
  uo <- urlparse o ;;
  if negb (is_valid_origin (as_obj uo)) then Ok (XStr "JUNK")
  else
    let v := lower v in
    if String.eqb v "sameorigin"
    then Ok (XTup "SAMEORIGIN" (ETup (scheme uo) (hostname uo)))
    else if String.eqb v "deny" then Ok (XStr "DENY")
    else if startswith v "allow-from " then
      let tokens := split " " v in
      t1 <- index tokens 1 ;;
      ue <- urlparse t1 ;;
      ok <- (if (length tokens =? 2)%nat
             then t0 <- index tokens 0 ;;
                  Ok (String.eqb t0 "allow-from" && is_valid_origin (as_obj ue))
             else Ok false) ;;
      if ok
      then Ok (XTup "ALLOW-FROM" (ETup (scheme ue) (hostname ue)))
      else Ok (XStr "ALLOW-JUNK")
    else Ok (XStr "JUNK").

(** One turn of the loop of [normalize_csp]. *)
Definition normalize_csp_token (uo : ParseResult) (e : string) : exc exp :=
  let e := lower e in
  if String.eqb e "*" then Ok (EStr "*")
  else if String.eqb e "'none'" then Ok (EStr "none")
  else if String.eqb e "'self'" then Ok (ETup (scheme uo) (hostname uo))
  else if String.eqb e "http:" then Ok (ETup "http" (Some "*"))
  else if String.eqb e "https:" then Ok (ETup "https" (Some "*"))
  else
    ue <- urlparse e ;;
    if String.eqb (scheme ue) ""
    then Ok (ETup (scheme uo) (Some e))
    else Ok (ETup (scheme ue) (hostname ue)).

Fixpoint normalize_csp_loop (uo : ParseResult) (v : list string) : exc (list exp) :=
  match v with
  | [] => Ok []
  | e :: v' =>
      x <- normalize_csp_token uo e ;;
      nv <- normalize_csp_loop uo v' ;;
      Ok (x :: nv)
  end.

Definition normalize_csp (v : list string) (o : string) : exc value :=
  let o := fix_origin o in
  uo <- urlparse o ;;
  if negb (is_valid_origin (as_obj uo)) then Ok (VStr "JUNK")
  else
    nv <- normalize_csp_loop uo v ;;
    Ok (VList nv).

(** The loop that fills [pol['xfo']]. *)
Fixpoint pol_xfo (xs : list string) (orig : string) : exc (list xfo_value) :=
  match xs with
  | [] => Ok []
  | x :: xs' =>
      match parse_xfo x with
      | None => pol_xfo xs' orig
      | Some px =>
          nx <- normalize_xfo px orig ;;
          rest <- pol_xfo xs' orig ;;
          Ok (nx :: rest)
      end
  end.

(** The loop that fills [pol['csp']]. *)
Fixpoint pol_csp (cs : list string) (orig : string) : exc (list value) :=
  match cs with
  | [] => Ok []
  | c :: cs' =>
      match parse_csp c with
      | None => pol_csp cs' orig
      | Some pc =>
          nc <- normalize_csp pc orig ;;
          rest <- pol_csp cs' orig ;;
          Ok (nc :: rest)
      end
  end.

(** [[y for x in [x.split(',') for x in p['xfo']] for y in x]] *)
Definition split_commas (xs : list string) : list string :=
  flat_map (split ",") xs.

(** A [for] loop that updates [res] and may raise. *)
Fixpoint fold_rule (rule : exp -> xfo_value -> exc exp) (xs : list xfo_value)
    (res : exp) : exc exp :=
  match xs with
  | [] => Ok res
  | x :: xs' => r <- rule res x ;; fold_rule rule xs' r
  end.

Definition firefox_rule (res : exp) (x : xfo_value) : exc exp :=
  if xfo_eqb x (XStr "JUNK") then meet res (EStr "*")
  else if xfo_eqb x (XStr "DENY") || xfo_eqb x (XStr "ALLOW-JUNK")
  then meet res (EStr "none")
  else x1 <- xfo_item1 x ;; meet res x1.

Definition t_firefox (p : policies) (orig : string) : exc value :=
  px <- pol_xfo (split_commas (xfo p)) orig ;;
  pc <- pol_csp (csp p) orig ;;
  match pc with
  | c :: _ => Ok c
  | [] =>
      match px with
      | _ :: _ => res <- fold_rule firefox_rule px (EStr "*") ;; Ok (VList [res])
      | [] => Ok (VList [EStr "*"])
      end
  end.

(** [x == "JUNK" or x == "ALLOW-JUNK" or x[0] == "ALLOW-FROM"] *)
Definition allow_from_ignored (x : xfo_value) : exc bool :=
  if xfo_eqb x (XStr "JUNK") || xfo_eqb x (XStr "ALLOW-JUNK") then Ok true
  else t <- xfo_item0 x ;; Ok (String.eqb t "ALLOW-FROM").

Definition chrome_rule (res : exp) (x : xfo_value) : exc exp :=
  c <- allow_from_ignored x ;;
  if c then meet res (EStr "*")
  else if xfo_eqb x (XStr "DENY") then meet res (EStr "none")
  else x1 <- xfo_item1 x ;; meet res x1.

Definition t_chrome (p : policies) (orig : string) : exc value :=
  px <- pol_xfo (split_commas (xfo p)) orig ;;
  pc <- pol_csp (csp p) orig ;;
  match pc with
  | c :: _ => Ok c
  | [] =>
      match px with
      | _ :: _ => res <- fold_rule chrome_rule px (EStr "*") ;; Ok (VList [res])
      | [] => Ok (VList [EStr "*"])
      end
  end.

Definition t_opera_mini (p : policies) (orig : string) : exc value :=
  px <- pol_xfo (xfo p) orig ;;
  match px with
  | x :: _ =>
      c <- allow_from_ignored x ;;
      res <- (if c then Ok (EStr "*")
              else if xfo_eqb x (XStr "DENY") then Ok (EStr "none")
              else xfo_item1 x) ;;
      Ok (VList [res])
  | [] => Ok (VList [EStr "*"])
  end.

(** The branch on the first legacy value that Edge and Internet Explorer
    share. *)
Definition first_value_rule (x : xfo_value) : exc exp :=
  if xfo_eqb x (XStr "JUNK") then Ok (EStr "*")
  else if xfo_eqb x (XStr "DENY") || xfo_eqb x (XStr "ALLOW-JUNK")
  then Ok (EStr "none")
  else xfo_item1 x.

Definition t_edge (p : policies) (orig : string) : exc value :=
  pc <- pol_csp (csp p) orig ;;
  px <- pol_xfo (xfo p) orig ;;
  match pc with
  | c :: _ => Ok c
  | [] =>
      match px with
      | x :: _ => res <- first_value_rule x ;; Ok (VList [res])
      | [] => Ok (VList [EStr "*"])
      end
  end.

Definition t_explorer (p : policies) (orig : string) : exc value :=
  px <- pol_xfo (xfo p) orig ;;
  match px with
  | x :: _ => res <- first_value_rule x ;; Ok (VList [res])
  | [] => Ok (VList [EStr "*"])
  end.

(** [sys.exit()] raises [SystemExit]. *)
Definition translate (p : policies) (b : string) (orig : string) : exc value :=
  if String.eqb b FIREFOX then t_firefox p orig
  else if mem b [CHROME; SAFARI; SAFARI_IOS; SAMSUNG; UC_BROWSER] then t_chrome p orig
  else if String.eqb b IE then t_explorer p orig
  else if String.eqb b OPERA_MINI then t_opera_mini p orig
  else if String.eqb b EDGE then t_edge p orig
  else Raise SystemExit.

(** ** The analyzer *)

(** The dictionary from User-Agent strings to policies, in insertion
    order. *)
Definition site_data : Type := list (string * policies).

(** [p[b]] *)
Fixpoint getitem (p : site_data) (b : string) : exc policies :=
  match p with
  | [] => Raise KeyError
  | (k, v) :: p' => if String.eqb k b then Ok v else getitem p' b
  end.

Definition keys (p : site_data) : list string := map fst p.

Definition mem_value (x : value) (l : list value) : bool :=
  existsb (value_eqb x) l.

(** [[acc.append(x) for x in l if x not in acc]] *)
Fixpoint remove_duplicates (l acc : list value) : list value :=
  match l with
  | [] => acc
  | x :: l' =>
      if mem_value x acc then remove_duplicates l' acc
      else remove_duplicates l' (acc ++ [x])%list
  end.

(** The loop over [b_xfo + b_csp]. *)
Fixpoint collect (p : site_data) (bs : list string) (orig : string)
    (s : semantics) : exc semantics :=
  match bs with
  | [] => Ok s
  | b :: bs' =>
      pb <- getitem p b ;;
      v <- translate pb b orig ;;
      collect p bs' orig
        (if just_xfo b
         then mk_semantics (sem_xfo s ++ [v])%list (sem_csp s)
         else mk_semantics (sem_xfo s) (sem_csp s ++ [v])%list)
  end.

Definition find_inconsistencies (p : site_data) (orig : string) : exc semantics :=
  let b_xfo := filter just_xfo (keys p) in
  let b_csp := filter (fun b => negb (just_xfo b)) (keys p) in
  s <- collect p (b_xfo ++ b_csp)%list orig (mk_semantics [] []) ;;
  Ok (mk_semantics (remove_duplicates (sem_xfo s) [])
                   (remove_duplicates (sem_csp s) [])).

End Analyzer.

(** ** A model of [urlparse]

    [py_urlparse] follows CPython's [urllib.parse.urlsplit] for the two
    attributes the analyzer reads, [scheme] and [hostname]: leading control
    characters and spaces are stripped, TAB, CR and LF removed, a scheme is
    a letter followed by scheme characters up to the first colon, the
    network location follows [//] up to the first of [/], [?] and [#], a
    network location with one square bracket and not the other raises
    [ValueError], and the host name is the part of the network location
    after the last [@], inside the brackets or before the first colon, in
    lower case, or [None] when it is empty. The validation of a bracketed
    host as an IP address and the check of non-ASCII network locations,
    which raise [ValueError] on more inputs, are left out. *)

Module PyUrl.

Definition is_alpha (c : ascii) : bool :=
  let n := nat_of_ascii c in
  (((65 <=? n) && (n <=? 90)) || ((97 <=? n) && (n <=? 122)))%nat.

Definition is_digit (c : ascii) : bool :=
  let n := nat_of_ascii c in ((48 <=? n) && (n <=? 57))%nat.

Definition is_scheme_char (c : ascii) : bool :=
  is_alpha c || is_digit c || Ascii.eqb c "+" || Ascii.eqb c "-" || Ascii.eqb c ".".

Definition is_c0_or_space (c : ascii) : bool := (nat_of_ascii c <=? 32)%nat.

Definition is_unsafe (c : ascii) : bool :=
  let n := nat_of_ascii c in ((n =? 9) || (n =? 10) || (n =? 13))%nat.

Fixpoint lstrip_c0 (s : string) : string :=
  match s with
  | EmptyString => EmptyString
  | String c s' => if is_c0_or_space c then lstrip_c0 s' else s
  end.

Fixpoint remove (p : ascii -> bool) (s : string) : string :=
  match s with
  | EmptyString => EmptyString
  | String c s' => if p c then remove p s' else String c (remove p s')
  end.

Fixpoint all_chars (p : ascii -> bool) (s : string) : bool :=
  match s with
  | EmptyString => true
  | String c s' => p c && all_chars p s'
  end.

Fixpoint contains (c : ascii) (s : string) : bool :=
  match s with
  | EmptyString => false
  | String a s' => Ascii.eqb a c || contains c s'
  end.

(** the part of [s] before the first character that satisfies [p] *)
Fixpoint before (p : ascii -> bool) (s : string) : string :=
  match s with
  | EmptyString => EmptyString
  | String c s' => if p c then EmptyString else String c (before p s')
  end.

(** the part of [s] after the first character that satisfies [p] *)
Fixpoint after (p : ascii -> bool) (s : string) : string :=
  match s with
  | EmptyString => EmptyString
  | String c s' => if p c then s' else after p s'
  end.

Fixpoint after_last_opt (c : ascii) (s : string) : option string :=
  match s with
  | EmptyString => None
  | String a s' =>
      match after_last_opt c s' with
      | Some r => Some r
      | None => if Ascii.eqb a c then Some s' else None
      end
  end.

(** [s.rpartition(c)[2]] *)
Definition rpartition2 (c : ascii) (s : string) : string :=
  match after_last_opt c s with
  | Some r => r
  | None => s
  end.

(** the scheme and what follows its colon *)
Definition split_scheme (url : string) : string * string :=
  let pre := before (Ascii.eqb ":") url in
  match url with
  | String c0 _ =>
      if contains ":" url && negb (String.eqb pre "") && is_alpha c0
         && all_chars is_scheme_char pre
      then (lower pre, after (Ascii.eqb ":") url)
      else ("", url)
  | EmptyString => ("", url)
  end.

Definition is_netloc_end (c : ascii) : bool :=
  Ascii.eqb c "/" || Ascii.eqb c "?" || Ascii.eqb c "#".

(** [netloc], or [ValueError("Invalid IPv6 URL")] *)
Definition split_netloc (url : string) : exc string :=
  match url with
  | String "/" (String "/" rest) =>
      let netloc := before is_netloc_end rest in
      if (contains "[" netloc && negb (contains "]" netloc))
         || (contains "]" netloc && negb (contains "[" netloc))
      then Raise ValueError
      else Ok netloc
  | _ => Ok ""
  end.

(** the [hostname] property *)
Definition hostname_of (netloc : string) : option string :=
  let hostinfo := rpartition2 "@" netloc in
  let h :=
    if contains "[" hostinfo
    then before (Ascii.eqb "]") (after (Ascii.eqb "[") hostinfo)
    else before (Ascii.eqb ":") hostinfo in
  if String.eqb h "" then None
  else
    let name := before (Ascii.eqb "%") h in
    let zone := if contains "%" h then String "%" (after (Ascii.eqb "%") h) else "" in
    Some (lower name ++ zone).

Definition py_urlparse (url : string) : exc ParseResult :=
  let url := remove is_unsafe (lstrip_c0 url) in
  let (sch, rest) := split_scheme url in
  netloc <- split_netloc rest ;;
  Ok (mk_parse sch (hostname_of netloc)).

End PyUrl.

Import PyUrl.

Example urlparse_example_com :
  py_urlparse "https://example.com" = Ok (mk_parse "https" (Some "example.com")).
Proof. reflexivity. Qed.

Example urlparse_google_com :
  py_urlparse "https://google.com" = Ok (mk_parse "https" (Some "google.com")).
Proof. reflexivity. Qed.

Example urlparse_port_path :
  py_urlparse "http://User@Example.COM:8080/x?y#z" = Ok (mk_parse "http" (Some "example.com")).
Proof. reflexivity. Qed.

Example urlparse_bare_host :
  py_urlparse "example.com" = Ok (mk_parse "" None).
Proof. reflexivity. Qed.

Example urlparse_no_host :
  py_urlparse "https://" = Ok (mk_parse "https" None).
Proof. reflexivity. Qed.

Example urlparse_ftp :
  py_urlparse "ftp://example.com" = Ok (mk_parse "ftp" (Some "example.com")).
Proof. reflexivity. Qed.

Example urlparse_bracket :
  py_urlparse "//[" = Raise ValueError.
Proof. reflexivity. Qed.

(** ** Examples on the model *)

Example normalize_xfo_sameorigin :
  normalize_xfo py_urlparse "SAMEORIGIN" "https://example.com"
  = Ok (XTup "SAMEORIGIN" (ETup "https" (Some "example.com"))).
Proof. reflexivity. Qed.

Example normalize_xfo_relative :
  normalize_xfo py_urlparse "sameorigin" "//example.com"
  = Ok (XTup "SAMEORIGIN" (ETup "https" (Some "example.com"))).
Proof. reflexivity. Qed.

Example normalize_xfo_allow_from :
  normalize_xfo py_urlparse "ALLOW-FROM https://Google.com" "https://example.com"
  = Ok (XTup "ALLOW-FROM" (ETup "https" (Some "google.com"))).
Proof. reflexivity. Qed.

Example normalize_xfo_two_spaces :
  normalize_xfo py_urlparse "allow-from  https://google.com" "https://example.com"
  = Ok (XStr "ALLOW-JUNK").
Proof. reflexivity. Qed.

Example normalize_csp_self :
  normalize_csp py_urlparse ["'self'"; "https:"; "*.a.com"] "https://example.com"
  = Ok (VList [ETup "https" (Some "example.com"); ETup "https" (Some "*");
               ETup "https" (Some "*.a.com")]).
Proof. reflexivity. Qed.

(** * Properties *)

(** ** Equality tests decide equality *)

Lemma option_eqb_spec (h k : option string) :
  option_eqb String.eqb h k = true <-> h = k.
Proof.
  destruct h as [a|], k as [b|]; simpl; split; intros H;
    try discriminate; try reflexivity.
  - apply String.eqb_eq in H. now subst.
  - injection H as ->. apply String.eqb_refl.
Qed.

Lemma pyval_eqb_spec (a b : pyval) : pyval_eqb a b = true <-> a = b.
Proof.
  destruct a as [|s], b as [|t]; simpl; split; intros H;
    try discriminate; try reflexivity.
  - apply String.eqb_eq in H. now subst.
  - injection H as ->. apply String.eqb_refl.
Qed.

Lemma exp_eqb_spec (a b : exp) : exp_eqb a b = true <-> a = b.
Proof.
  destruct a as [s|s h], b as [t|t k]; simpl; split; intros H;
    try discriminate.
  - apply String.eqb_eq in H. now subst.
  - injection H as ->. apply String.eqb_refl.
  - apply andb_true_iff in H as [H1 H2].
    apply String.eqb_eq in H1. apply option_eqb_spec in H2. now subst.
  - injection H as -> ->. rewrite String.eqb_refl. simpl.
    now apply option_eqb_spec.
Qed.

Lemma exp_eqb_refl (e : exp) : exp_eqb e e = true.
Proof. now apply exp_eqb_spec. Qed.

Lemma list_eqb_spec (l m : list exp) : list_eqb exp_eqb l m = true <-> l = m.
Proof.
  revert m. induction l as [|a l IH]; intros [|b m]; simpl; split; intros H;
    try discriminate; try reflexivity.
  - apply andb_true_iff in H as [H1 H2].
    apply exp_eqb_spec in H1. apply IH in H2. now subst.
  - injection H as -> ->. rewrite exp_eqb_refl. simpl. now apply IH.
Qed.

Lemma value_eqb_spec (a b : value) : value_eqb a b = true <-> a = b.
Proof.
  destruct a as [s|l], b as [t|m]; simpl; split; intros H;
    try discriminate.
  - apply String.eqb_eq in H. now subst.
  - injection H as ->. apply String.eqb_refl.
  - apply list_eqb_spec in H. now subst.
  - injection H as ->. now apply list_eqb_spec.
Qed.

(** ** The origin validator *)

(** The validator in closed form. *)
Lemma is_valid_origin_eq (sc ho : option pyval) :
  is_valid_origin (mk_urlobj sc ho) =
  match sc, ho with
  | Some (PyStr s), Some (PyStr h) =>
      (String.eqb s "http" || String.eqb s "https")
      && (negb (String.eqb h "") && negb (startswith h "*."))
  | _, _ => false
  end.
Proof.
  unfold is_valid_origin, is_valid_origin_try.
  destruct sc as [[|s]|], ho as [[|h]|]; simpl; try reflexivity;
    repeat match goal with
           | |- context [String.eqb ?a ?b] => destruct (String.eqb a b); simpl
           end; reflexivity.
Qed.

(** C7. [is_valid_origin] is a total boolean function: an exception of its
    body (an absent attribute, a host that is [None]) gives [false]; and it
    answers [true] exactly when the scheme is [http] or [https] and the host
    is a non-empty string that does not start with [*.]. *)
Theorem is_valid_origin_spec (uo : urlobj) :
  (is_valid_origin uo = true <->
     (attr_scheme uo = Some (PyStr "http") \/ attr_scheme uo = Some (PyStr "https"))
     /\ exists h, attr_hostname uo = Some (PyStr h)
                  /\ h <> "" /\ startswith h "*." = false)
  /\ (forall e, is_valid_origin_try uo = Raise e -> is_valid_origin uo = false)
  /\ (attr_scheme uo = None \/ attr_hostname uo = None
      \/ attr_hostname uo = Some PyNone -> is_valid_origin uo = false).
Proof.
  split; [|split].
  - destruct uo as [sc ho]. rewrite is_valid_origin_eq. simpl. split.
    + destruct sc as [[|s]|]; try discriminate.
      destruct ho as [[|h]|]; try discriminate.
      intros H. apply andb_true_iff in H as [H1 H2].
      apply andb_true_iff in H2 as [H2 H3].
      apply negb_true_iff in H2, H3. apply String.eqb_neq in H2.
      apply orb_true_iff in H1. split.
      * destruct H1 as [H1|H1]; apply String.eqb_eq in H1; subst; auto.
      * exists h. auto.
    + intros [Hs (h & -> & Hn & Hp)]. rewrite Hp.
      apply String.eqb_neq in Hn. rewrite Hn.
      destruct Hs as [->| ->]; reflexivity.
  - intros e H. unfold is_valid_origin. now rewrite H.
  - destruct uo as [sc ho]. rewrite is_valid_origin_eq. simpl.
    intros [->|[->| ->]]; try reflexivity;
      destruct sc as [[|s]|]; reflexivity.
Qed.

Lemma is_valid_origin_spec_witness :
  is_valid_origin (as_obj (mk_parse "https" (Some "example.com"))) = true
  /\ is_valid_origin (mk_urlobj (Some (PyStr "https")) None) = false
  /\ is_valid_origin (as_obj (mk_parse "https" None)) = false.
Proof.
  pose proof (is_valid_origin_spec (as_obj (mk_parse "https" (Some "example.com"))))
    as (V & _).
  pose proof (is_valid_origin_spec (mk_urlobj (Some (PyStr "https")) None))
    as (_ & _ & A).
  pose proof (is_valid_origin_spec (as_obj (mk_parse "https" None)))
    as (_ & _ & N).
  split; [|split].
  - apply V. split; [now right|]. exists "example.com".
    repeat split; try reflexivity. discriminate.
  - apply A. right. now left.
  - apply N. right. now right.
Defined.

(** ** Strings: splitting, joining, suffixes *)

Section StringFacts.

Lemma length_append (s t : string) :
  String.length (s ++ t) = String.length s + String.length t.
Proof. induction s as [|c s IH]; simpl; [reflexivity | now rewrite IH]. Qed.

Lemma split_not_nil (c : ascii) (s : string) : split c s <> [].
Proof.
  destruct s as [|a s]; simpl; [discriminate|].
  destruct (Ascii.eqb a c); [discriminate|].
  destruct (split c s); discriminate.
Qed.

Lemma split_cons (c : ascii) (s : string) : exists t ts, split c s = t :: ts.
Proof.
  destruct (split c s) as [|t ts] eqn:E.
  - now apply split_not_nil in E.
  - now exists t, ts.
Qed.

Lemma join_cons (sep t : string) (ts : list string) :
  ts <> [] -> join sep (t :: ts) = t ++ sep ++ join sep ts.
Proof. destruct ts; [now intros [] | reflexivity]. Qed.

(** Joining what [split] produced gives the string back. *)
Lemma join_split (c : ascii) (s : string) :
  join (String c EmptyString) (split c s) = s.
Proof.
  induction s as [|a s IH]; simpl; [reflexivity|].
  destruct (Ascii.eqb_spec a c) as [->|Hac].
  - rewrite join_cons by apply split_not_nil. simpl. now rewrite IH.
  - destruct (split c s) as [|t ts] eqn:E; [now apply split_not_nil in E|].
    destruct ts as [|u us]; simpl in *; now rewrite <- IH.
Qed.

(** A string other than ["*"] whose first label is ["*"] starts with
    ["*."]. *)
Lemma first_label_star (s : string) :
  s <> "*" -> hd "" (split "." s) = "*" ->
  s = "*." ++ join "." (tl (split "." s)).
Proof.
  intros Hs Hh. pose proof (join_split "." s) as J.
  destruct (split "." s) as [|t ts]; simpl in *; [now subst|].
  subst t. destruct ts as [|u us]; [now subst|].
  now rewrite <- J.
Qed.

Lemma endswith_unfold (s x : string) :
  endswith s x =
  if String.eqb s x then true
  else match s with
       | EmptyString => false
       | String _ s' => endswith s' x
       end.
Proof. destruct s; reflexivity. Qed.

Lemma endswith_spec (s x : string) :
  endswith s x = true -> exists p, s = p ++ x.
Proof.
  induction s as [|a s IH]; rewrite endswith_unfold;
    match goal with
    | |- context [String.eqb ?u x] => destruct (String.eqb_spec u x) as [<-|]
    end; try (now exists ""); try discriminate.
  intros H. destruct (IH H) as (p & ->). now exists (String a p).
Qed.

(** Two wildcard hosts each of which ends with the other's remainder are
    the same host. *)
Lemma wildcard_suffix_antisym (ra rb p q : string) :
  "*." ++ ra = p ++ "." ++ rb ->
  "*." ++ rb = q ++ "." ++ ra ->
  ra = rb.
Proof.
  intros Ha Hb.
  assert (La := f_equal String.length Ha).
  assert (Lb := f_equal String.length Hb).
  rewrite !length_append in La, Lb. simpl in La, Lb.
  destruct p as [|c [|c' p]]; simpl in *.
  - discriminate.
  - now injection Ha.
  - destruct q as [|d q]; simpl in *; [discriminate | lia].
Qed.

End StringFacts.

(** ** The ordering on hosts and expressions *)

(** [leq_host] on two strings, without the monad. *)
Definition leq_host_str (a b : string) : bool :=
  String.eqb a b
  || String.eqb b "*"
  || (negb (String.eqb a "*")
      && String.eqb (hd "" (split "." b)) "*"
      && endswith a ("." ++ join "." (tl (split "." b)))).

Lemma leq_host_strings (a b : string) :
  leq_host (PyStr a) (PyStr b) = Ok (leq_host_str a b).
Proof.
  unfold leq_host, leq_host_str. simpl.
  destruct (String.eqb a b); [reflexivity|].
  destruct (String.eqb b "*"); [reflexivity|].
  destruct (String.eqb a "*"); [reflexivity|]. simpl.
  destruct (split_cons "." a) as (t & ts & ->).
  destruct (split_cons "." b) as (u & us & ->). simpl.
  destruct (String.eqb t "*"); simpl; destruct (String.eqb u "*"); reflexivity.
Qed.

Lemma leq_host_str_antisym (a b : string) :
  leq_host_str a b = true -> leq_host_str b a = true -> a = b.
Proof.
  unfold leq_host_str. rewrite (String.eqb_sym b a).
  destruct (String.eqb_spec a b) as [|Hab]; [trivial|]. simpl.
  destruct (String.eqb_spec b "*") as [->|Hb]; simpl.
  - destruct (String.eqb_spec a "*") as [->|Ha]; [now elim Hab|].
    simpl. discriminate.
  - destruct (String.eqb_spec a "*") as [->|Ha]; simpl; [discriminate|].
    intros H1 H2.
    apply andb_true_iff in H1 as [H1 E1]. apply andb_true_iff in H2 as [H2 E2].
    apply String.eqb_eq in H1, H2.
    apply endswith_spec in E1 as (p & E1). apply endswith_spec in E2 as (q & E2).
    pose proof (first_label_star a Ha H2) as Fa.
    pose proof (first_label_star b Hb H1) as Fb.
    rewrite Fa in E1 at 1. rewrite Fb in E2 at 1.
    pose proof (wildcard_suffix_antisym _ _ _ _ E1 E2) as R.
    rewrite Fa, Fb. now rewrite R.
Qed.

Lemma leq_host_antisym (h1 h2 : pyval) :
  leq_host h1 h2 = Ok true -> leq_host h2 h1 = Ok true -> h1 = h2.
Proof.
  destruct h1 as [|a], h2 as [|b]; try reflexivity.
  - unfold leq_host. simpl.
    destruct (String.eqb b "*"); simpl; discriminate.
  - unfold leq_host at 1. simpl.
    destruct (String.eqb a "*"); simpl; discriminate.
  - rewrite !leq_host_strings. intros H1 H2.
    injection H1 as H1. injection H2 as H2.
    f_equal. now apply leq_host_str_antisym.
Qed.


(** The expressions of the lattice: ['*'], ['none'] and the pairs. *)
Definition policy_exp (e : exp) : Prop :=
  match e with
  | EStr s => s = "*" \/ s = "none"
  | ETup _ _ => True
  end.

(** The expressions on which no comparison raises: the host of a pair is a
    string. *)
Definition comparable (e : exp) : Prop :=
  match e with
  | EStr s => s = "*" \/ s = "none"
  | ETup _ h => h <> None
  end.

Lemma comparable_policy (e : exp) : comparable e -> policy_exp e.
Proof. destruct e; simpl; tauto. Qed.


Lemma leq_exp_pairs (s1 s2 : string) (h1 h2 : option string) :
  leq_exp (ETup s1 h1) (ETup s2 h2) =
  if exp_eqb (ETup s1 h1) (ETup s2 h2) then Ok true
  else if String.eqb s1 s2 then leq_host (host_val h1) (host_val h2)
  else Ok false.
Proof.
  unfold leq_exp. destruct (exp_eqb (ETup s1 h1) (ETup s2 h2)); reflexivity.
Qed.

Lemma leq_exp_refl (e : exp) : leq_exp e e = Ok true.
Proof. unfold leq_exp. now rewrite exp_eqb_refl. Qed.





(** ** The ordering on values *)

Lemma leq_exp_comparable (e1 e2 : exp) :
  comparable e1 -> comparable e2 -> exists b, leq_exp e1 e2 = Ok b.
Proof.
  destruct e1 as [a|s1 h1], e2 as [b|s2 h2]; simpl.
  - intros [->| ->] [->| ->]; eexists; reflexivity.
  - intros [->| ->] _; eexists; reflexivity.
  - intros _ [->| ->]; eexists; reflexivity.
  - intros H1 H2. rewrite leq_exp_pairs.
    destruct (exp_eqb (ETup s1 h1) (ETup s2 h2)); [now eexists|].
    destruct (String.eqb s1 s2); [|now eexists].
    destruct h1 as [a|], h2 as [b|]; try contradiction. simpl.
    rewrite leq_host_strings. now eexists.
Qed.

Lemma leq_val_inner_comparable (e : exp) (l : list exp) (found : bool) :
  comparable e -> Forall comparable l ->
  exists b, leq_val_inner e l found = Ok b
            /\ (found = true \/ In e l -> b = true).
Proof.
  intros He Hl. revert found.
  induction Hl as [|e2 l H2 Hl IH]; intros found; simpl.
  - exists found. split; [reflexivity|]. intros [H|[]]; exact H.
  - destruct (leq_exp_comparable e e2 He H2) as (b & Eb). rewrite Eb. simpl.
    destruct (IH (if b then true else found)) as (r & Er & Hr).
    exists r. split; [exact Er|].
    intros [->|[<-|Hin]]; apply Hr.
    + left. now destruct b.
    + left. rewrite leq_exp_refl in Eb. now injection Eb as <-.
    + now right.
Qed.

Lemma leq_val_outer_incl (l1 l2 : list exp) :
  Forall comparable l2 -> incl l1 l2 -> leq_val_outer l1 l2 = Ok true.
Proof.
  intros H2. induction l1 as [|e l1 IH]; intros Hi; simpl; [reflexivity|].
  assert (He : comparable e).
  { eapply Forall_forall; [exact H2|]. apply Hi. now left. }
  destruct (leq_val_inner_comparable e l2 false He H2) as (b & Eb & Hb).
  rewrite Eb. simpl. rewrite Hb.
  - simpl. apply IH. intros x Hx. apply Hi. now right.
  - right. apply Hi. now left.
Qed.

(** C10, amended. The empty list is below every value: [leq_val([], v)] is
    [True] for every [v], the empty list included, so [leq_val] is reflexive
    on the empty list; it is reflexive too on every list whose expressions
    are ['*'], ['none'] or pairs with a string host. *)
Theorem leq_val_empty_bottom :
  (forall v : value, leq_val (VList []) v = Ok true)
  /\ leq_val (VList []) (VList []) = Ok true
  /\ (forall l : list exp, Forall comparable l ->
        leq_val (VList l) (VList l) = Ok true).
Proof.
  split; [|split].
  - intros v. reflexivity.
  - reflexivity.
  - intros l Hl. unfold leq_val. simpl.
    apply leq_val_outer_incl; [exact Hl | apply incl_refl].
Qed.

Lemma leq_val_empty_bottom_witness :
  leq_val (VList []) (VStr "JUNK") = Ok true
  /\ leq_val (VList [ETup "https" (Some "a.com"); EStr "none"])
             (VList [ETup "https" (Some "a.com"); EStr "none"]) = Ok true.
Proof.
  destruct leq_val_empty_bottom as (B & _ & R).
  split; [apply B|]. apply R.
  repeat constructor; discriminate.
Defined.

(** C10, as stated, fails on a non-empty list: the modern header
    ['self' https:/a.com] normalizes to a list with a host that is [None]
    next to a string host of the same scheme, and the comparison of that
    list with itself raises [AttributeError] in [leq_host]. *)
Lemma leq_val_reflexivity_fails :
  normalize_csp py_urlparse ["'self'"; "https:/a.com"] "https://example.com"
  = Ok (VList [ETup "https" (Some "example.com"); ETup "https" None])
  /\ leq_val (VList [ETup "https" (Some "example.com"); ETup "https" None])
             (VList [ETup "https" (Some "example.com"); ETup "https" None])
     = Raise AttributeError
  /\ leq_val (VList [ETup "https" (Some "example.com"); ETup "https" None])
             (VList [ETup "https" (Some "example.com"); ETup "https" None])
     <> Ok true.
Proof. repeat split; try reflexivity. discriminate. Qed.

(** A list with a host that is [None] next to a host of the same scheme is
    not below itself: the comparison raises. *)
Example leq_val_not_reflexive :
  leq_val (VList [ETup "data" None; ETup "data" (Some "x")])
          (VList [ETup "data" None; ETup "data" (Some "x")])
  = Raise AttributeError.
Proof. reflexivity. Qed.

(** ** The legacy normalizer *)

Lemma prefix_append (p s : string) :
  String.prefix p s = true -> exists rest, s = p ++ rest.
Proof.
  revert s. induction p as [|a p IH]; intros s.
  - intros _. now exists s.
  - destruct s as [|b s]; simpl; [discriminate|].
    destruct (ascii_dec a b) as [->|]; [|discriminate].
    intros H. destruct (IH s H) as (rest & ->). now exists rest.
Qed.

Lemma prefix_of_append (p rest : string) : String.prefix p (p ++ rest) = true.
Proof.
  induction p as [|a p IH]; simpl.
  - destruct rest; reflexivity.
  - destruct (ascii_dec a a); [exact IH | congruence].
Qed.

(** A value that starts with ["allow-from "] splits into that word and the
    tokens of what follows the space, of which there is at least one. *)
Lemma allow_from_tokens (v : string) :
  startswith v "allow-from " = true ->
  exists rest t1 ts,
    v = "allow-from " ++ rest
    /\ split " " rest = t1 :: ts
    /\ split " " v = "allow-from" :: t1 :: ts.
Proof.
  intros H. apply prefix_append in H as (rest & ->).
  destruct (split_cons " " rest) as (t1 & ts & E).
  exists rest, t1, ts. repeat split; trivial.
  simpl. now rewrite E.
Qed.

Section LegacyNormalizer.

Variable urlparse : string -> exc ParseResult.

(** The [allow-from] branch of [normalize_xfo], for a valid page origin:
    the second token is parsed first; then the value is [ALLOW-FROM] when
    there are two tokens and the second is a valid origin, and [ALLOW-JUNK]
    otherwise. *)
Lemma allow_from_branch (v o rest t1 : string) (ts : list string)
    (uo : ParseResult) :
  urlparse (fix_origin o) = Ok uo ->
  is_valid_origin (as_obj uo) = true ->
  lower v = "allow-from " ++ rest ->
  split " " rest = t1 :: ts ->
  normalize_xfo urlparse v o =
  ue <- urlparse t1 ;;
  if (length ts =? 0)%nat && is_valid_origin (as_obj ue)
  then Ok (XTup "ALLOW-FROM" (ETup (scheme ue) (hostname ue)))
  else Ok (XStr "ALLOW-JUNK").
Proof.
  intros Ho Hv Hl Hs. unfold normalize_xfo. rewrite Ho. simpl bind.
  rewrite Hv. simpl negb. cbv iota. rewrite Hl.
  change (String.eqb ("allow-from " ++ rest) "sameorigin") with false.
  change (String.eqb ("allow-from " ++ rest) "deny") with false.
  cbv iota.
  replace (startswith ("allow-from " ++ rest) "allow-from ") with true
    by (symmetry; apply prefix_of_append).
  cbv iota.
  replace (split " " ("allow-from " ++ rest)) with ("allow-from" :: t1 :: ts)
    by (simpl; now rewrite Hs).
  simpl index. simpl bind. 
  destruct (urlparse t1) as [ue|e]; simpl; [|reflexivity].
  destruct ts; simpl; reflexivity.
Qed.

(** Every exception of [normalize_xfo] is one that [urlparse] raised, on
    the page origin or on the second token. *)
Lemma normalize_xfo_outcome (v o : string) :
  returns (normalize_xfo urlparse v o)
  \/ exists e, normalize_xfo urlparse v o = Raise e
       /\ (urlparse (fix_origin o) = Raise e
           \/ exists t, index (split " " (lower v)) 1 = Ok t
                        /\ urlparse t = Raise e).
Proof.
  destruct (urlparse (fix_origin o)) as [uo|e] eqn:Ho.
  2:{ right. exists e. split; [|now left]. unfold normalize_xfo. now rewrite Ho. }
  destruct (is_valid_origin (as_obj uo)) eqn:Hv.
  2:{ left. unfold normalize_xfo. rewrite Ho. simpl. rewrite Hv. now eexists. }
  destruct (startswith (lower v) "allow-from ") eqn:Hp.
  - destruct (allow_from_tokens _ Hp) as (rest & t1 & ts & Hl & Hs & Hsp).
    rewrite (allow_from_branch v o rest t1 ts uo Ho Hv Hl Hs).
    destruct (urlparse t1) as [ue|e] eqn:He; simpl.
    + left. destruct (_ && _); now eexists.
    + right. exists e. split; [reflexivity|]. right. exists t1.
      rewrite Hsp. split; [reflexivity | exact He].
  - left. unfold normalize_xfo. rewrite Ho. simpl. rewrite Hv. simpl.
    rewrite Hp.
    destruct (String.eqb (lower v) "sameorigin"); [now eexists|].
    destruct (String.eqb (lower v) "deny"); now eexists.
Qed.

End LegacyNormalizer.

(** [normalize_xfo] raises no [IndexError]: in the [allow-from] branch
    the split on the space has a second token, because the value starts with
    ["allow-from "]; the function returns a value unless [urlparse] itself
    raises on the page origin or on that second token, and then it raises
    what [urlparse] raised. *)
Theorem normalize_xfo_index_safe (urlparse : string -> exc ParseResult)
    (v o : string) :
  (startswith (lower v) "allow-from " = true ->
     exists t, index (split " " (lower v)) 1 = Ok t)
  /\ (returns (normalize_xfo urlparse v o)
      \/ exists e, normalize_xfo urlparse v o = Raise e
           /\ (urlparse (fix_origin o) = Raise e
               \/ exists t, index (split " " (lower v)) 1 = Ok t
                            /\ urlparse t = Raise e))
  /\ ((forall s, urlparse s <> Raise IndexError) ->
      normalize_xfo urlparse v o <> Raise IndexError)
  /\ ((forall s, returns (urlparse s)) -> returns (normalize_xfo urlparse v o)).
Proof.
  pose proof (normalize_xfo_outcome urlparse v o) as O.
  split; [|split; [exact O|split]].
  - intros Hp. destruct (allow_from_tokens _ Hp) as (rest & t1 & ts & _ & _ & ->).
    now exists t1.
  - intros Hu H. destruct O as [(x & Hx)|(e & He & [Hr|(t & _ & Hr)])].
    + congruence.
    + rewrite H in He. injection He as <-. now apply Hu in Hr.
    + rewrite H in He. injection He as <-. now apply Hu in Hr.
  - intros Hu. destruct O as [Hx|(e & He & [Hr|(t & _ & Hr)])]; [exact Hx| |].
    + destruct (Hu (fix_origin o)) as (x & Hx). congruence.
    + destruct (Hu t) as (x & Hx). congruence.
Qed.

(** The model of [urlparse] raises nothing but [ValueError]. *)
Lemma py_urlparse_raises (s : string) (e : exn) :
  py_urlparse s = Raise e -> e = ValueError.
Proof.
  unfold py_urlparse. destruct (split_scheme _) as [sch rest].
  unfold split_netloc.
  repeat match goal with
         | |- context [match ?x with _ => _ end] => destruct x
         end; simpl; try discriminate; now intros [= <-].
Qed.

Lemma normalize_xfo_index_safe_witness :
  (exists t, index (split " " (lower "ALLOW-FROM https://google.com")) 1 = Ok t)
  /\ normalize_xfo py_urlparse "ALLOW-FROM https://google.com" "https://example.com"
     <> Raise IndexError.
Proof.
  destruct (normalize_xfo_index_safe py_urlparse "ALLOW-FROM https://google.com"
              "https://example.com") as (T & _ & I & _).
  split; [apply T; reflexivity|].
  apply I. intros s H. apply py_urlparse_raises in H. discriminate.
Defined.

(** The two outcomes of the [allow-from] branch on the model of [urlparse],
    and the value on which it raises. *)
Example allow_from_valid :
  normalize_xfo py_urlparse "ALLOW-FROM https://google.com" "https://example.com"
  = Ok (XTup "ALLOW-FROM" (ETup "https" (Some "google.com"))).
Proof. reflexivity. Qed.

Example allow_from_extra_token :
  normalize_xfo py_urlparse "ALLOW-FROM https://google.com x" "https://example.com"
  = Ok (XStr "ALLOW-JUNK").
Proof. reflexivity. Qed.

Example allow_from_not_an_origin :
  normalize_xfo py_urlparse "ALLOW-FROM google" "https://example.com"
  = Ok (XStr "ALLOW-JUNK").
Proof. reflexivity. Qed.

(** C6. On the value [ALLOW-FROM //[] the legacy normalizer does not return
    [ALLOW-JUNK]: [urlparse] is called on the second token before the token
    count and the validity are tested, outside the [try] block of
    [is_valid_origin], and its [ValueError] is raised to the caller. *)
Theorem allow_from_unparsable_raises :
  startswith (lower "ALLOW-FROM //[") "allow-from " = true
  /\ split " " (lower "ALLOW-FROM //[") = ["allow-from"; "//["]
  /\ py_urlparse "//[" = Raise ValueError
  /\ normalize_xfo py_urlparse "ALLOW-FROM //[" "https://example.com"
     = Raise ValueError.
Proof. repeat split; reflexivity. Qed.

(** C9. [normalize_xfo] is not total. On the value [ALLOW-FROM //[] the
    second token exists, the index is in range, but [urlparse] raises
    [ValueError] on it and [normalize_xfo] returns nothing; it raises too
    when [urlparse] raises on the page origin, as on [//[], which is parsed
    as [https://[]. Both calls of [urlparse] stand outside the [try] block
    of [is_valid_origin]. *)
Theorem normalize_xfo_not_total :
  index (split " " (lower "ALLOW-FROM //[")) 1 = Ok "//["
  /\ normalize_xfo py_urlparse "ALLOW-FROM //[" "https://example.com"
     = Raise ValueError
  /\ ~ returns (normalize_xfo py_urlparse "ALLOW-FROM //[" "https://example.com")
  /\ normalize_xfo py_urlparse "DENY" "//[" = Raise ValueError.
Proof.
  repeat split; try reflexivity.
  intros (x & H). discriminate H.
Qed.

(** ** The translators *)

(** The absence sentinel. *)
Definition absent (raw : string) : Prop := raw = "WARN_NO_HEADER".

(** The values [normalize_xfo] returns: three strings, or a tag with an
    origin whose host is a string. *)
Definition xfo_shape (x : xfo_value) : Prop :=
  x = XStr "JUNK" \/ x = XStr "DENY" \/ x = XStr "ALLOW-JUNK"
  \/ exists tag s h, x = XTup tag (ETup s (Some h)).

Lemma valid_origin_host (u : ParseResult) :
  is_valid_origin (as_obj u) = true -> exists h, hostname u = Some h.
Proof.
  unfold as_obj. rewrite is_valid_origin_eq.
  destruct (hostname u) as [h|]; simpl; [now exists h | discriminate].
Qed.

Lemma meet_comparable (e1 e2 : exp) :
  comparable e1 -> comparable e2 ->
  exists r, meet e1 e2 = Ok r /\ comparable r.
Proof.
  intros H1 H2. unfold meet.
  destruct (leq_exp_comparable e1 e2 H1 H2) as ([|] & ->); simpl.
  - now exists e1.
  - destruct (leq_exp_comparable e2 e1 H2 H1) as ([|] & ->); simpl.
    + now exists e2.
    + exists (EStr "none"). split; [reflexivity | now right].
Qed.

Section Translators.

Variable urlparse : string -> exc ParseResult.

Lemma normalize_xfo_shape (v o : string) (x : xfo_value) :
  normalize_xfo urlparse v o = Ok x -> xfo_shape x.
Proof.
  destruct (urlparse (fix_origin o)) as [uo|e] eqn:Ho.
  2:{ unfold normalize_xfo. rewrite Ho. discriminate. }
  destruct (is_valid_origin (as_obj uo)) eqn:Hv.
  2:{ unfold normalize_xfo. rewrite Ho. simpl. rewrite Hv. simpl.
      intros [= <-]. now left. }
  destruct (valid_origin_host uo Hv) as (h & Hh).
  destruct (startswith (lower v) "allow-from ") eqn:Hp.
  - destruct (allow_from_tokens _ Hp) as (rest & t1 & ts & Hl & Hs & _).
    rewrite (allow_from_branch urlparse v o rest t1 ts uo Ho Hv Hl Hs).
    destruct (urlparse t1) as [ue|e]; simpl; [|discriminate].
    destruct (length ts =? 0)%nat; simpl.
    + destruct (is_valid_origin (as_obj ue)) eqn:Hu; intros [= <-].
      * destruct (valid_origin_host ue Hu) as (k & ->).
        do 3 right. now exists "ALLOW-FROM", (scheme ue), k.
      * do 2 right. now left.
    + intros [= <-]. do 2 right. now left.
  - unfold normalize_xfo. rewrite Ho. simpl. rewrite Hv. simpl. rewrite Hp, Hh.
    destruct (String.eqb (lower v) "sameorigin").
    + intros [= <-]. do 3 right. now exists "SAMEORIGIN", (scheme uo), h.
    + destruct (String.eqb (lower v) "deny"); intros [= <-].
      * right. now left.
      * now left.
Qed.

Lemma pol_xfo_shape (xs : list string) (o : string) (px : list xfo_value) :
  pol_xfo urlparse xs o = Ok px -> Forall xfo_shape px.
Proof.
  revert px. induction xs as [|x xs IH]; intros px; simpl.
  - intros [= <-]. constructor.
  - destruct (parse_xfo x) as [v|]; [|apply IH].
    destruct (normalize_xfo urlparse v o) as [nx|e] eqn:En; simpl; [|discriminate].
    destruct (pol_xfo urlparse xs o) as [rest|e]; simpl; [|discriminate].
    intros [= <-]. constructor.
    + eapply normalize_xfo_shape, En.
    + now apply IH.
Qed.

Lemma firefox_rule_comparable (res : exp) (x : xfo_value) :
  comparable res -> xfo_shape x ->
  exists r, firefox_rule res x = Ok r /\ comparable r.
Proof.
  intros Hr [->|[->|[->|(tag & s & h & ->)]]]; unfold firefox_rule; simpl;
    apply meet_comparable; simpl; auto; discriminate.
Qed.

Lemma chrome_rule_comparable (res : exp) (x : xfo_value) :
  comparable res -> xfo_shape x ->
  exists r, chrome_rule res x = Ok r /\ comparable r.
Proof.
  intros Hr [->|[->|[->|(tag & s & h & ->)]]]; unfold chrome_rule; simpl;
    try (apply meet_comparable; simpl; auto; discriminate).
  destruct (String.eqb tag "ALLOW-FROM"); simpl;
    apply meet_comparable; simpl; auto; discriminate.
Qed.

Lemma first_value_rule_comparable (x : xfo_value) :
  xfo_shape x -> exists r, first_value_rule x = Ok r /\ comparable r.
Proof.
  intros [->|[->|[->|(tag & s & h & ->)]]]; unfold first_value_rule; simpl;
    eexists; (split; [reflexivity|]); simpl; auto; discriminate.
Qed.

Lemma fold_rule_comparable (rule : exp -> xfo_value -> exc exp)
    (px : list xfo_value) (res : exp) :
  (forall a x, comparable a -> xfo_shape x ->
               exists r, rule a x = Ok r /\ comparable r) ->
  comparable res -> Forall xfo_shape px ->
  exists r, fold_rule rule px res = Ok r /\ comparable r.
Proof.
  intros Hrule Hres Hpx. revert res Hres.
  induction Hpx as [|x px Hx Hpx IH]; intros res Hres; simpl.
  - now exists res.
  - destruct (Hrule res x Hres Hx) as (r & -> & Hr). simpl. now apply IH.
Qed.

Lemma pol_csp_absent (cs : list string) (o : string) :
  Forall absent cs -> pol_csp urlparse cs o = Ok [].
Proof.
  induction 1 as [|c cs Hc _ IH]; simpl; [reflexivity|].
  unfold parse_csp. rewrite Hc. simpl. exact IH.
Qed.

Lemma pol_xfo_absent (xs : list string) (o : string) :
  Forall absent xs -> pol_xfo urlparse xs o = Ok [].
Proof.
  induction 1 as [|x xs Hx _ IH]; simpl; [reflexivity|].
  unfold parse_xfo. rewrite Hx. simpl. exact IH.
Qed.

(** [pol['csp']] when the first present modern header is [c]. *)
Lemma pol_csp_first (pre post : list string) (c o : string) :
  Forall absent pre -> c <> "WARN_NO_HEADER" ->
  pol_csp urlparse (pre ++ c :: post)%list o =
  nc <- normalize_csp urlparse (split_ws (strip c)) o ;;
  rest <- pol_csp urlparse post o ;;
  Ok (nc :: rest).
Proof.
  intros Hpre Hc. induction Hpre as [|a pre Ha _ IH]; simpl.
  - unfold parse_csp. apply String.eqb_neq in Hc. now rewrite Hc.
  - unfold parse_csp at 1. rewrite Ha. simpl. exact IH.
Qed.

Lemma normalize_csp_loop_length (uo : ParseResult) (v : list string)
    (nv : list exp) :
  normalize_csp_loop urlparse uo v = Ok nv -> length nv = length v.
Proof.
  revert nv. induction v as [|e v IH]; intros nv; simpl.
  - now intros [= <-].
  - destruct (normalize_csp_token urlparse uo e); simpl; [|discriminate].
    destruct (normalize_csp_loop urlparse uo v) as [l|]; simpl; [|discriminate].
    intros [= <-]. simpl. f_equal. now apply IH.
Qed.

(** For a valid page origin the modern normalizer returns a list, with one
    expression for each token. *)
Lemma normalize_csp_valid (v : list string) (o : string) (uo : ParseResult)
    (r : value) :
  urlparse (fix_origin o) = Ok uo ->
  is_valid_origin (as_obj uo) = true ->
  normalize_csp urlparse v o = Ok r ->
  exists l, r = VList l /\ length l = length v.
Proof.
  intros Ho Hv. unfold normalize_csp. rewrite Ho. simpl. rewrite Hv. simpl.
  destruct (normalize_csp_loop urlparse uo v) as [l|] eqn:El; simpl; [|discriminate].
  intros [= <-]. exists l. split; [reflexivity|].
  eapply normalize_csp_loop_length, El.
Qed.

(** For a page origin that is not valid both normalizers return the string
    ["JUNK"]. *)
Lemma invalid_origin_junk (v : string) (t : list string) (o : string)
    (uo : ParseResult) :
  urlparse (fix_origin o) = Ok uo ->
  is_valid_origin (as_obj uo) = false ->
  normalize_xfo urlparse v o = Ok (XStr "JUNK")
  /\ normalize_csp urlparse t o = Ok (VStr "JUNK").
Proof.
  intros Ho Hv. unfold normalize_xfo, normalize_csp.
  rewrite Ho. simpl. now rewrite Hv.
Qed.

End Translators.

Section TranslatorResults.

Variable urlparse : string -> exc ParseResult.

(** *** Legacy values only *)

Lemma t_explorer_singleton (p : policies) (o : string) (px : list xfo_value) :
  pol_xfo urlparse (xfo p) o = Ok px ->
  exists e, t_explorer urlparse p o = Ok (VList [e])
            /\ comparable e /\ (px = [] -> e = EStr "*").
Proof.
  intros H. pose proof (pol_xfo_shape urlparse _ _ _ H) as S.
  unfold t_explorer. rewrite H. simpl.
  destruct px as [|x px].
  - exists (EStr "*"). repeat split; simpl; auto.
  - inversion S as [|? ? Sx _]; subst.
    destruct (first_value_rule_comparable x Sx) as (r & -> & Hr). simpl.
    exists r. repeat split; [exact Hr | discriminate].
Qed.

Lemma t_opera_mini_singleton (p : policies) (o : string) (px : list xfo_value) :
  pol_xfo urlparse (xfo p) o = Ok px ->
  exists e, t_opera_mini urlparse p o = Ok (VList [e])
            /\ comparable e /\ (px = [] -> e = EStr "*").
Proof.
  intros H. pose proof (pol_xfo_shape urlparse _ _ _ H) as S.
  unfold t_opera_mini. rewrite H. simpl.
  destruct px as [|x px].
  - exists (EStr "*"). repeat split; simpl; auto.
  - inversion S as [|? ? Sx _]; subst.
    destruct Sx as [->|[->|[->|(tag & s & h & ->)]]]; simpl;
      try (eexists; repeat split; simpl; auto; discriminate).
    destruct (String.eqb tag "ALLOW-FROM"); simpl;
      eexists; repeat split; simpl; auto; discriminate.
Qed.

Lemma t_edge_singleton (p : policies) (o : string) (px : list xfo_value) :
  Forall absent (csp p) ->
  pol_xfo urlparse (xfo p) o = Ok px ->
  exists e, t_edge urlparse p o = Ok (VList [e])
            /\ comparable e /\ (px = [] -> e = EStr "*").
Proof.
  intros Hc H. pose proof (pol_xfo_shape urlparse _ _ _ H) as S.
  unfold t_edge. rewrite (pol_csp_absent urlparse _ o Hc), H. simpl.
  destruct px as [|x px].
  - exists (EStr "*"). repeat split; simpl; auto.
  - inversion S as [|? ? Sx _]; subst.
    destruct (first_value_rule_comparable x Sx) as (r & -> & Hr). simpl.
    exists r. repeat split; [exact Hr | discriminate].
Qed.

Lemma t_firefox_singleton (p : policies) (o : string) (px : list xfo_value) :
  Forall absent (csp p) ->
  pol_xfo urlparse (split_commas (xfo p)) o = Ok px ->
  exists e, t_firefox urlparse p o = Ok (VList [e])
            /\ comparable e /\ (px = [] -> e = EStr "*").
Proof.
  intros Hc H. pose proof (pol_xfo_shape urlparse _ _ _ H) as S.
  unfold t_firefox. rewrite H, (pol_csp_absent urlparse _ o Hc). simpl.
  destruct px as [|x px].
  - exists (EStr "*"). repeat split; simpl; auto.
  - destruct (fold_rule_comparable firefox_rule (x :: px) (EStr "*")
                firefox_rule_comparable (or_introl eq_refl) S) as (r & -> & Hr).
    simpl. exists r. repeat split; [exact Hr | discriminate].
Qed.

Lemma t_chrome_singleton (p : policies) (o : string) (px : list xfo_value) :
  Forall absent (csp p) ->
  pol_xfo urlparse (split_commas (xfo p)) o = Ok px ->
  exists e, t_chrome urlparse p o = Ok (VList [e])
            /\ comparable e /\ (px = [] -> e = EStr "*").
Proof.
  intros Hc H. pose proof (pol_xfo_shape urlparse _ _ _ H) as S.
  unfold t_chrome. rewrite H, (pol_csp_absent urlparse _ o Hc). simpl.
  destruct px as [|x px].
  - exists (EStr "*"). repeat split; simpl; auto.
  - destruct (fold_rule_comparable chrome_rule (x :: px) (EStr "*")
                chrome_rule_comparable (or_introl eq_refl) S) as (r & -> & Hr).
    simpl. exists r. repeat split; [exact Hr | discriminate].
Qed.

(** *** A modern header is present *)

Section ModernFirst.

Variables (xs pre post : list string) (c o : string).
Hypothesis pre_absent : Forall absent pre.
Hypothesis c_present : c <> "WARN_NO_HEADER".

Let p : policies := mk_policies xs (pre ++ c :: post)%list.
Let first : exc value := normalize_csp urlparse (split_ws (strip c)) o.

Lemma t_firefox_modern :
  (forall r, t_firefox urlparse p o = Ok r -> first = Ok r)
  /\ (returns (pol_xfo urlparse (split_commas xs) o) ->
      returns (pol_csp urlparse post o) -> t_firefox urlparse p o = first).
Proof.
  unfold t_firefox, p, first. simpl.
  rewrite (pol_csp_first urlparse pre post c o pre_absent c_present).
  split.
  - intros r. destruct (pol_xfo urlparse (split_commas xs) o); simpl; [|discriminate].
    destruct (normalize_csp urlparse (split_ws (strip c)) o); simpl; [|discriminate].
    destruct (pol_csp urlparse post o); simpl; [trivial | discriminate].
  - intros (px & ->) (rest & ->). simpl.
    destruct (normalize_csp urlparse (split_ws (strip c)) o); reflexivity.
Qed.

Lemma t_chrome_modern :
  (forall r, t_chrome urlparse p o = Ok r -> first = Ok r)
  /\ (returns (pol_xfo urlparse (split_commas xs) o) ->
      returns (pol_csp urlparse post o) -> t_chrome urlparse p o = first).
Proof.
  unfold t_chrome, p, first. simpl.
  rewrite (pol_csp_first urlparse pre post c o pre_absent c_present).
  split.
  - intros r. destruct (pol_xfo urlparse (split_commas xs) o); simpl; [|discriminate].
    destruct (normalize_csp urlparse (split_ws (strip c)) o); simpl; [|discriminate].
    destruct (pol_csp urlparse post o); simpl; [trivial | discriminate].
  - intros (px & ->) (rest & ->). simpl.
    destruct (normalize_csp urlparse (split_ws (strip c)) o); reflexivity.
Qed.

Lemma t_edge_modern :
  (forall r, t_edge urlparse p o = Ok r -> first = Ok r)
  /\ (returns (pol_xfo urlparse xs o) ->
      returns (pol_csp urlparse post o) -> t_edge urlparse p o = first).
Proof.
  unfold t_edge, p, first. simpl.
  rewrite (pol_csp_first urlparse pre post c o pre_absent c_present).
  split.
  - intros r.
    destruct (normalize_csp urlparse (split_ws (strip c)) o); simpl; [|discriminate].
    destruct (pol_csp urlparse post o); simpl; [|discriminate].
    destruct (pol_xfo urlparse xs o); simpl; [trivial | discriminate].
  - intros (px & ->) (rest & ->). simpl.
    destruct (normalize_csp urlparse (split_ws (strip c)) o); reflexivity.
Qed.

End ModernFirst.

End TranslatorResults.

(** The result of the three translators that read modern headers, when one
    is present. *)
Lemma modern_header_first_lemma (urlparse : string -> exc ParseResult)
    (xs pre post : list string) (c o : string) :
  Forall absent pre -> c <> "WARN_NO_HEADER" ->
  let p := mk_policies xs (pre ++ c :: post)%list in
  let first := normalize_csp urlparse (split_ws (strip c)) o in
  (forall r, t_firefox urlparse p o = Ok r \/ t_chrome urlparse p o = Ok r
             \/ t_edge urlparse p o = Ok r -> first = Ok r)
  /\ (returns (pol_xfo urlparse (split_commas xs) o) ->
      returns (pol_csp urlparse post o) ->
      t_firefox urlparse p o = first /\ t_chrome urlparse p o = first)
  /\ (returns (pol_xfo urlparse xs o) ->
      returns (pol_csp urlparse post o) ->
      t_edge urlparse p o = first).
Proof.
  intros Hpre Hc p first.
  destruct (t_firefox_modern urlparse xs pre post c o Hpre Hc) as [F1 F2].
  destruct (t_chrome_modern urlparse xs pre post c o Hpre Hc) as [C1 C2].
  destruct (t_edge_modern urlparse xs pre post c o Hpre Hc) as [E1 E2].
  split; [|split].
  - intros r [H|[H|H]]; [apply F1 | apply C1 | apply E1]; exact H.
  - intros Hx Hp. split; [apply F2 | apply C2]; assumption.
  - exact E2.
Qed.

(** ** Claims on the translators *)

(** C1, as stated, fails for Internet Explorer and Opera Mini: with the
    modern header [*] present, which normalizes to [['*']], their result
    is [['none']], from the legacy header [DENY]. *)
Lemma legacy_only_translators_ignore_modern :
  normalize_csp py_urlparse (split_ws (strip "*")) "https://example.com"
  = Ok (VList [EStr "*"])
  /\ t_explorer py_urlparse (mk_policies ["DENY"] ["*"]) "https://example.com"
     = Ok (VList [EStr "none"])
  /\ t_opera_mini py_urlparse (mk_policies ["DENY"] ["*"]) "https://example.com"
     = Ok (VList [EStr "none"])
  /\ ~ (forall (p : policies) (o : string) (v : value) (rest : list value),
          pol_csp py_urlparse (csp p) o = Ok (v :: rest) ->
          t_explorer py_urlparse p o = Ok v).
Proof.
  repeat split; try reflexivity.
  intros H.
  specialize (H (mk_policies ["DENY"] ["*"]) "https://example.com"
                (VList [EStr "*"]) [] eq_refl).
  discriminate H.
Qed.

(** C1, amended. For Firefox, the Chrome family and Edge: when [c] is the
    first modern header that is not the absence sentinel, a result of the
    translator is the normalized value of [c], whatever the other modern
    headers and the legacy headers are; and the translator returns it as
    soon as the normalization of those other headers raises nothing.
    Internet Explorer and Opera Mini do not read the modern headers. *)
Theorem modern_header_first (urlparse : string -> exc ParseResult)
    (xs pre post : list string) (c o : string) :
  Forall absent pre -> c <> "WARN_NO_HEADER" ->
  let p := mk_policies xs (pre ++ c :: post)%list in
  let first := normalize_csp urlparse (split_ws (strip c)) o in
  (forall r, t_firefox urlparse p o = Ok r \/ t_chrome urlparse p o = Ok r
             \/ t_edge urlparse p o = Ok r -> first = Ok r)
  /\ (returns (pol_xfo urlparse (split_commas xs) o) ->
      returns (pol_csp urlparse post o) ->
      t_firefox urlparse p o = first /\ t_chrome urlparse p o = first)
  /\ (returns (pol_xfo urlparse xs o) ->
      returns (pol_csp urlparse post o) ->
      t_edge urlparse p o = first)
  /\ (forall cs : list string,
        t_explorer urlparse (mk_policies xs cs) o = t_explorer urlparse p o
        /\ t_opera_mini urlparse (mk_policies xs cs) o = t_opera_mini urlparse p o).
Proof.
  intros Hpre Hc p first.
  destruct (modern_header_first_lemma urlparse xs pre post c o Hpre Hc)
    as (M & F & E).
  split; [exact M | split; [exact F | split; [exact E|]]].
  intros cs. split; reflexivity.
Qed.

Lemma modern_header_first_witness :
  t_firefox py_urlparse
    (mk_policies ["DENY"] ["WARN_NO_HEADER"; "'self' https:"; "'none'"])
    "https://example.com"
  = Ok (VList [ETup "https" (Some "example.com"); ETup "https" (Some "*")]).
Proof.
  pose proof (modern_header_first py_urlparse ["DENY"] ["WARN_NO_HEADER"]
                ["'none'"] "'self' https:" "https://example.com") as H.
  assert (Hpre : Forall absent ["WARN_NO_HEADER"])
    by (constructor; [reflexivity | constructor]).
  assert (Hc : "'self' https:" <> "WARN_NO_HEADER") by discriminate.
  destruct (H Hpre Hc) as (_ & F & _).
  destruct F as [F _]; [now eexists | now eexists |].
  exact (eq_trans F eq_refl).
Defined.

(** C2, as stated, fails: with a valid page origin and a modern header
    whose value is empty or white space the result of Firefox, of the
    Chrome family and of Edge is the empty list, not [['*']]. *)
Lemma empty_directive_list_gives_empty_result :
  (exists uo, py_urlparse (fix_origin "https://example.com") = Ok uo
              /\ is_valid_origin (as_obj uo) = true)
  /\ parse_csp "" = Some []
  /\ t_firefox py_urlparse (mk_policies [] [""]) "https://example.com" = Ok (VList [])
  /\ t_chrome py_urlparse (mk_policies ["DENY"] ["   "]) "https://example.com" = Ok (VList [])
  /\ t_edge py_urlparse (mk_policies [] [""]) "https://example.com" = Ok (VList [])
  /\ t_firefox py_urlparse (mk_policies [] [""]) "https://example.com"
     <> Ok (VList [EStr "*"]).
Proof.
  split; [|repeat split; try reflexivity; discriminate].
  eexists. split; reflexivity.
Qed.

(** C2, amended. For a valid page origin, when the normalization of the
    legacy headers raises nothing: Internet Explorer and Opera Mini return
    a list of one expression, and so do Edge, Firefox and the Chrome family
    when every modern header is the absence sentinel; that expression is
    ['*'] when no legacy value was produced. When [c] is the first modern
    header that is not the sentinel, a result of Firefox, of the Chrome
    family or of Edge is a list with one expression for each token of [c]
    (it is empty when [c] has no token). *)
Theorem enforced_semantics_shape (urlparse : string -> exc ParseResult)
    (p : policies) (o : string) (uo : ParseResult) :
  urlparse (fix_origin o) = Ok uo ->
  is_valid_origin (as_obj uo) = true ->
  (forall px, pol_xfo urlparse (xfo p) o = Ok px ->
     (exists e, t_explorer urlparse p o = Ok (VList [e])
                /\ (px = [] -> e = EStr "*"))
     /\ (exists e, t_opera_mini urlparse p o = Ok (VList [e])
                   /\ (px = [] -> e = EStr "*"))
     /\ (Forall absent (csp p) ->
         exists e, t_edge urlparse p o = Ok (VList [e])
                   /\ (px = [] -> e = EStr "*")))
  /\ (forall px, pol_xfo urlparse (split_commas (xfo p)) o = Ok px ->
      Forall absent (csp p) ->
      (exists e, t_firefox urlparse p o = Ok (VList [e])
                 /\ (px = [] -> e = EStr "*"))
      /\ (exists e, t_chrome urlparse p o = Ok (VList [e])
                    /\ (px = [] -> e = EStr "*")))
  /\ (forall pre c post r,
        csp p = (pre ++ c :: post)%list ->
        Forall absent pre -> c <> "WARN_NO_HEADER" ->
        t_firefox urlparse p o = Ok r \/ t_chrome urlparse p o = Ok r
        \/ t_edge urlparse p o = Ok r ->
        exists l, r = VList l /\ length l = length (split_ws (strip c))).
Proof.
  intros Ho Hv. split; [|split].
  - intros px Hx. split; [|split].
    + destruct (t_explorer_singleton urlparse p o px Hx) as (e & He & _ & Hn).
      now exists e.
    + destruct (t_opera_mini_singleton urlparse p o px Hx) as (e & He & _ & Hn).
      now exists e.
    + intros Hc.
      destruct (t_edge_singleton urlparse p o px Hc Hx) as (e & He & _ & Hn).
      now exists e.
  - intros px Hx Hc. split.
    + destruct (t_firefox_singleton urlparse p o px Hc Hx) as (e & He & _ & Hn).
      now exists e.
    + destruct (t_chrome_singleton urlparse p o px Hc Hx) as (e & He & _ & Hn).
      now exists e.
  - intros pre c post r Hp Hpre Hc Hr.
    destruct p as [xs cs]. simpl in Hp. subst cs.
    destruct (modern_header_first_lemma urlparse xs pre post c o Hpre Hc) as [M _].
    apply (normalize_csp_valid urlparse _ o uo r Ho Hv). now apply M.
Qed.

Lemma enforced_semantics_shape_witness :
  exists l,
    t_firefox py_urlparse (mk_policies ["DENY"] ["'self' *"]) "https://example.com"
    = Ok (VList l)
    /\ length l = 2.
Proof.
  destruct (enforced_semantics_shape py_urlparse
              (mk_policies ["DENY"] ["'self' *"]) "https://example.com"
              (mk_parse "https" (Some "example.com")) eq_refl eq_refl)
    as (_ & _ & C).
  assert (Hc : "'self' *" <> "WARN_NO_HEADER") by discriminate.
  destruct (C [] "'self' *" []
              (VList [ETup "https" (Some "example.com"); EStr "*"])
              eq_refl (Forall_nil _) Hc (or_introl eq_refl))
    as (l & Hl & Hlen).
  exists l. split; [now rewrite <- Hl | exact Hlen].
Defined.

(** *** A page origin that is not valid *)

Section InvalidOrigin.

Variable urlparse : string -> exc ParseResult.
Variables (o : string) (uo : ParseResult).
Hypothesis parsed : urlparse (fix_origin o) = Ok uo.
Hypothesis invalid : is_valid_origin (as_obj uo) = false.

Lemma pol_xfo_invalid (xs : list string) :
  exists px, pol_xfo urlparse xs o = Ok px /\ Forall (eq (XStr "JUNK")) px.
Proof.
  induction xs as [|x xs (px & E & F)]; simpl.
  - now exists [].
  - destruct (parse_xfo x) as [v|]; [|now exists px].
    destruct (invalid_origin_junk urlparse v [] o uo parsed invalid) as [-> _].
    simpl. rewrite E. simpl. exists (XStr "JUNK" :: px). split; auto.
Qed.

Lemma fold_firefox_junk (px : list xfo_value) :
  Forall (eq (XStr "JUNK")) px ->
  fold_rule firefox_rule px (EStr "*") = Ok (EStr "*").
Proof. induction 1 as [|x px <- _ IH]; simpl; [reflexivity | exact IH]. Qed.

Lemma fold_chrome_junk (px : list xfo_value) :
  Forall (eq (XStr "JUNK")) px ->
  fold_rule chrome_rule px (EStr "*") = Ok (EStr "*").
Proof. induction 1 as [|x px <- _ IH]; simpl; [reflexivity | exact IH]. Qed.

(** Without a modern header, an invalid page origin makes every legacy
    value ["JUNK"], and every translator returns [['*']]. *)
Lemma invalid_origin_legacy (p : policies) :
  Forall absent (csp p) ->
  t_firefox urlparse p o = Ok (VList [EStr "*"])
  /\ t_chrome urlparse p o = Ok (VList [EStr "*"])
  /\ t_edge urlparse p o = Ok (VList [EStr "*"])
  /\ t_explorer urlparse p o = Ok (VList [EStr "*"])
  /\ t_opera_mini urlparse p o = Ok (VList [EStr "*"]).
Proof.
  intros Hc.
  destruct (pol_xfo_invalid (split_commas (xfo p))) as (pxs & Es & Fs).
  destruct (pol_xfo_invalid (xfo p)) as (px & E & F).
  unfold t_firefox, t_chrome, t_edge, t_explorer, t_opera_mini.
  rewrite Es, E, (pol_csp_absent urlparse _ o Hc). simpl.
  repeat split.
  - destruct pxs; [reflexivity|]. now rewrite (fold_firefox_junk _ Fs).
  - destruct pxs; [reflexivity|]. now rewrite (fold_chrome_junk _ Fs).
  - destruct F as [|x px <- _]; reflexivity.
  - destruct F as [|x px <- _]; reflexivity.
  - destruct F as [|x px <- _]; reflexivity.
Qed.

End InvalidOrigin.

(** C5. With a modern header present and a page origin that is not valid
    (here the scheme is [ftp]) Firefox, the Chrome family and Edge return
    the string ["JUNK"] that [normalize_csp] produced, not a list of
    expressions; in [leq_val] that string is visited character by character
    and ['*'] is not below it, so that it does not stand for ['*']: the
    report with [['*']] on the legacy side is inconsistent. *)
Theorem junk_modern_value_returned :
  (exists uo, py_urlparse (fix_origin "ftp://example.com") = Ok uo
              /\ is_valid_origin (as_obj uo) = false)
  /\ normalize_csp py_urlparse ["'none'"] "ftp://example.com" = Ok (VStr "JUNK")
  /\ t_firefox py_urlparse (mk_policies [] ["'none'"]) "ftp://example.com"
     = Ok (VStr "JUNK")
  /\ t_chrome py_urlparse (mk_policies [] ["'none'"]) "ftp://example.com"
     = Ok (VStr "JUNK")
  /\ t_edge py_urlparse (mk_policies [] ["'none'"]) "ftp://example.com"
     = Ok (VStr "JUNK")
  /\ leq_val (VList [EStr "*"]) (VStr "JUNK") = Ok false
  /\ find_inconsistencies py_urlparse
       [(IE, mk_policies [] []); (FIREFOX, mk_policies [] ["'none'"])]
       "ftp://example.com"
     = Ok (mk_semantics [VList [EStr "*"]] [VStr "JUNK"])
  /\ is_inconsistent (mk_semantics [VList [EStr "*"]] [VStr "JUNK"]) = Ok true
  /\ is_inconsistent (mk_semantics [VList [EStr "*"]] [VList [EStr "*"]]) = Ok false.
Proof.
  split; [eexists; split; reflexivity|].
  repeat split; vm_compute; reflexivity.
Qed.

(** ** The analyzer *)

(** A bucket holds more than one distinct value. *)
Definition several (l : list value) : Prop :=
  exists a b, In a l /\ In b l /\ a <> b.

Lemma several_length (l : list value) : several l -> 1 < length l.
Proof.
  intros (a & b & Ha & Hb & Hab).
  destruct l as [|x [|y l]]; simpl in *; [contradiction | | lia].
  destruct Ha as [<-|[]], Hb as [<-|[]]. now elim Hab.
Qed.


Lemma mem_value_spec (x : value) (l : list value) :
  mem_value x l = true <-> In x l.
Proof.
  unfold mem_value. rewrite existsb_exists. split.
  - intros (y & Hy & E). apply value_eqb_spec in E. now subst.
  - intros H. exists x. split; [exact H | now apply value_eqb_spec].
Qed.

Lemma remove_duplicates_nodup (l acc : list value) :
  NoDup acc -> NoDup (remove_duplicates l acc).
Proof.
  revert acc. induction l as [|x l IH]; intros acc N; simpl; [exact N|].
  destruct (mem_value x acc) eqn:M; [now apply IH|].
  apply IH. apply NoDup_app; [exact N | repeat constructor; intros [] |].
  intros y Hy [<-|[]]. apply mem_value_spec in Hy. congruence.
Qed.

Lemma find_inconsistencies_nodup (urlparse : string -> exc ParseResult)
    (p : site_data) (o : string) (s : semantics) :
  find_inconsistencies urlparse p o = Ok s ->
  NoDup (sem_xfo s) /\ NoDup (sem_csp s).
Proof.
  unfold find_inconsistencies.
  destruct (collect _ _ _ _ _) as [c|]; simpl; [|discriminate].
  intros [= <-]. simpl. split; apply remove_duplicates_nodup; constructor.
Qed.

Lemma is_inconsistent_several (s : semantics) :
  (1 < length (sem_xfo s) \/ 1 < length (sem_csp s)) ->
  is_inconsistent s = Ok true.
Proof.
  intros H. unfold is_inconsistent.
  replace ((1 <? length (sem_xfo s)) || (1 <? length (sem_csp s)))%nat with true;
    [reflexivity|].
  symmetry. apply orb_true_iff. rewrite !Nat.ltb_lt. exact H.
Qed.


Lemma is_inconsistent_empty_bucket (s : semantics) :
  length (sem_xfo s) <= 1 -> length (sem_csp s) <= 1 ->
  sem_xfo s = [] \/ sem_csp s = [] ->
  is_inconsistent s = Ok false.
Proof.
  destruct s as [[|x [|? ?]] [|y [|? ?]]]; simpl; intros Lx Lc H;
    try lia; try reflexivity.
  destruct H; discriminate.
Qed.



(** ** Scenario B *)

Lemma collect_cons (urlparse : string -> exc ParseResult) (p : site_data)
    (b : string) (bs : list string) (orig : string) (s : semantics) :
  collect urlparse p (b :: bs) orig s =
  pb <- getitem p b ;;
  v <- translate urlparse pb b orig ;;
  collect urlparse p bs orig
    (if just_xfo b
     then mk_semantics (sem_xfo s ++ [v])%list (sem_csp s)
     else mk_semantics (sem_xfo s) (sem_csp s ++ [v])%list).
Proof. reflexivity. Qed.

Section ScenarioB.

Variable urlparse : string -> exc ParseResult.
Hypothesis parse_page :
  urlparse "https://example.com" = Ok (mk_parse "https" (Some "example.com")).
Hypothesis parse_allowed :
  urlparse "https://google.com" = Ok (mk_parse "https" (Some "google.com")).

Lemma scenario_B_legacy_value :
  normalize_xfo urlparse "allow-from https://google.com" "https://example.com"
  = Ok (XTup "ALLOW-FROM" (ETup "https" (Some "google.com"))).
Proof.
  unfold normalize_xfo.
  change (fix_origin "https://example.com") with "https://example.com".
  rewrite parse_page. cbv. rewrite parse_allowed. reflexivity.
Qed.

Lemma scenario_B_modern_value :
  normalize_csp urlparse ["*"] "https://example.com" = Ok (VList [EStr "*"]).
Proof.
  unfold normalize_csp.
  change (fix_origin "https://example.com") with "https://example.com".
  rewrite parse_page. reflexivity.
Qed.

Lemma scenario_B_pol_xfo :
  pol_xfo urlparse ["allow-from https://google.com"] "https://example.com"
  = Ok [XTup "ALLOW-FROM" (ETup "https" (Some "google.com"))].
Proof.
  change (pol_xfo urlparse ["allow-from https://google.com"] "https://example.com")
    with (nx <- normalize_xfo urlparse "allow-from https://google.com"
                  "https://example.com" ;;
          rest <- Ok [] ;; Ok (nx :: rest)).
  rewrite scenario_B_legacy_value. reflexivity.
Qed.

Lemma scenario_B_explorer (cs : list string) :
  translate urlparse (mk_policies ["allow-from https://google.com"] cs) IE
    "https://example.com"
  = Ok (VList [ETup "https" (Some "google.com")]).
Proof.
  change (translate urlparse (mk_policies ["allow-from https://google.com"] cs)
            IE "https://example.com")
    with (t_explorer urlparse (mk_policies ["allow-from https://google.com"] cs)
            "https://example.com").
  unfold t_explorer. simpl xfo. rewrite scenario_B_pol_xfo. reflexivity.
Qed.

Lemma scenario_B_opera_mini (cs : list string) :
  translate urlparse (mk_policies ["allow-from https://google.com"] cs) OPERA_MINI
    "https://example.com"
  = Ok (VList [EStr "*"]).
Proof.
  change (translate urlparse (mk_policies ["allow-from https://google.com"] cs)
            OPERA_MINI "https://example.com")
    with (t_opera_mini urlparse (mk_policies ["allow-from https://google.com"] cs)
            "https://example.com").
  unfold t_opera_mini. simpl xfo. rewrite scenario_B_pol_xfo. reflexivity.
Qed.

Lemma scenario_B_chrome :
  translate urlparse (mk_policies [] ["*"]) CHROME "https://example.com"
  = Ok (VList [EStr "*"]).
Proof.
  change (translate urlparse (mk_policies [] ["*"]) CHROME "https://example.com")
    with (pc <- (nc <- normalize_csp urlparse ["*"] "https://example.com" ;;
                 rest <- Ok [] ;; Ok (nc :: rest)) ;;
          match pc with
          | c :: _ => Ok c
          | [] => Ok (VList [EStr "*"])
          end).
  rewrite scenario_B_modern_value. reflexivity.
Qed.

Lemma scenario_B_report (c1 c2 : list string) :
  find_inconsistencies urlparse
    [(IE, mk_policies ["allow-from https://google.com"] c1);
     (OPERA_MINI, mk_policies ["allow-from https://google.com"] c2);
     (CHROME, mk_policies [] ["*"])]
    "https://example.com"
  = Ok (mk_semantics [VList [ETup "https" (Some "google.com")]; VList [EStr "*"]]
                     [VList [EStr "*"]]).
Proof.
  unfold find_inconsistencies.
  change (filter just_xfo (keys _)) with [IE; OPERA_MINI].
  change (filter (fun b => negb (just_xfo b)) (keys _)) with [CHROME].
  set (data := [(IE, _); (OPERA_MINI, _); (CHROME, _)]).
  change ([IE; OPERA_MINI] ++ [CHROME])%list with [IE; OPERA_MINI; CHROME].
  rewrite collect_cons.
  change (getitem data IE)
    with (Ok (mk_policies ["allow-from https://google.com"] c1)).
  cbv [bind]. rewrite scenario_B_explorer.
  rewrite collect_cons.
  change (getitem data OPERA_MINI)
    with (Ok (mk_policies ["allow-from https://google.com"] c2)).
  cbv [bind]. rewrite scenario_B_opera_mini.
  rewrite collect_cons.
  change (getitem data CHROME) with (Ok (mk_policies [] ["*"])).
  cbv [bind]. rewrite scenario_B_chrome.
  reflexivity.
Qed.

End ScenarioB.

(** C3. Scenario B: the page is [https://example.com]; Internet Explorer
    and Opera Mini receive the legacy header [allow-from https://google.com]
    (their modern headers, whatever they are, are not read) and the Chrome
    family receives the modern header [*]. Internet Explorer enforces the
    held origin, Opera Mini enforces ['*']: the legacy bucket holds two
    distinct values, the modern bucket holds one, and [is_inconsistent]
    returns [True] by its first test, on the sizes of the buckets. *)
Theorem scenario_B (urlparse : string -> exc ParseResult) (c1 c2 : list string) :
  urlparse "https://example.com" = Ok (mk_parse "https" (Some "example.com")) ->
  urlparse "https://google.com" = Ok (mk_parse "https" (Some "google.com")) ->
  exists s,
    find_inconsistencies urlparse
      [(IE, mk_policies ["allow-from https://google.com"] c1);
       (OPERA_MINI, mk_policies ["allow-from https://google.com"] c2);
       (CHROME, mk_policies [] ["*"])]
      "https://example.com" = Ok s
    /\ sem_xfo s = [VList [ETup "https" (Some "google.com")]; VList [EStr "*"]]
    /\ sem_csp s = [VList [EStr "*"]]
    /\ several (sem_xfo s)
    /\ ~ several (sem_csp s)
    /\ is_inconsistent s = Ok true.
Proof.
  intros Hp Hg. eexists. split; [apply (scenario_B_report urlparse Hp Hg)|].
  simpl. repeat split.
  - exists (VList [ETup "https" (Some "google.com")]), (VList [EStr "*"]).
    simpl. repeat split; auto. discriminate.
  - intros H. apply several_length in H. simpl in H. lia.
Qed.

Lemma scenario_B_witness :
  exists s,
    find_inconsistencies py_urlparse
      [(IE, mk_policies ["allow-from https://google.com"] ["WARN_NO_HEADER"]);
       (OPERA_MINI, mk_policies ["allow-from https://google.com"] ["WARN_NO_HEADER"]);
       (CHROME, mk_policies [] ["*"])]
      "https://example.com" = Ok s
    /\ is_inconsistent s = Ok true.
Proof.
  destruct (scenario_B py_urlparse ["WARN_NO_HEADER"] ["WARN_NO_HEADER"]
              eq_refl eq_refl) as (s & F & _ & _ & _ & _ & I).
  exists s. split; assumption.
Defined.

(** * Further properties of the code *)

(** ** Hosts *)

Lemma append_assoc (s t u : string) : (s ++ t) ++ u = s ++ t ++ u.
Proof. induction s as [|c s IH]; simpl; [reflexivity | now rewrite IH]. Qed.

Lemma endswith_complete (p x : string) : endswith (p ++ x) x = true.
Proof.
  induction p as [|c p IH]; rewrite endswith_unfold.
  - simpl. now rewrite String.eqb_refl.
  - simpl append. destruct (String.eqb (String c (p ++ x)) x); [reflexivity | exact IH].
Qed.

Lemma split_wildcard (r : string) : split "." ("*." ++ r) = "*" :: split "." r.
Proof.
  simpl. destruct (split_cons "." r) as (t & ts & E). now rewrite E.
Qed.

(** [leq_host] on strings, as a relation. *)
Lemma leq_host_str_iff (a b : string) :
  leq_host_str a b = true <->
  a = b \/ b = "*"
  \/ (a <> "*" /\ exists r p, b = "*." ++ r /\ a = p ++ "." ++ r).
Proof.
  unfold leq_host_str. split.
  - intros H. apply orb_true_iff in H as [H|H];
      [apply orb_true_iff in H as [H|H]|].
    + left. now apply String.eqb_eq.
    + right. left. now apply String.eqb_eq.
    + apply andb_true_iff in H as [H E]. apply andb_true_iff in H as [Na Hh].
      apply negb_true_iff, String.eqb_neq in Na. apply String.eqb_eq in Hh.
      destruct (String.eqb_spec b "*") as [->|Nb]; [now right; left|].
      right. right. split; [exact Na|].
      apply endswith_spec in E as (p & E).
      exists (join "." (tl (split "." b))), p. split; [|exact E].
      now apply first_label_star.
  - intros [->|[->|(Na & r & p & -> & ->)]].
    + now rewrite String.eqb_refl.
    + rewrite String.eqb_refl. now rewrite orb_true_r.
    + rewrite split_wildcard. simpl hd. simpl tl. rewrite join_split.
      rewrite endswith_complete. apply String.eqb_neq in Na. rewrite Na.
      simpl. now rewrite !orb_true_r.
Qed.

(** X1. A host is below the wildcard host [*.r] exactly when it is that
    host, or it is not ["*"] and ends with [.r]; the bare domain [r] itself
    is not below [*.r]; every host, [None] included, is below ["*"], and
    ["*"] is below no other host. *)
Theorem leq_host_wildcard (a r : string) (h : pyval) :
  (leq_host (PyStr a) (PyStr ("*." ++ r)) = Ok true <->
     a = "*." ++ r \/ (a <> "*" /\ exists p, a = p ++ "." ++ r))
  /\ leq_host (PyStr r) (PyStr ("*." ++ r)) = Ok false
  /\ leq_host h (PyStr "*") = Ok true
  /\ leq_host (PyStr "*") h = Ok (pyval_eqb h (PyStr "*")).
Proof.
  assert (W : leq_host (PyStr a) (PyStr ("*." ++ r)) = Ok true <->
              a = "*." ++ r \/ (a <> "*" /\ exists p, a = p ++ "." ++ r)).
  { rewrite leq_host_strings. split.
    - intros [= H]. apply leq_host_str_iff in H
        as [->|[H|(Na & r' & p & E & ->)]]; [now left | discriminate |].
      right. split; [exact Na|]. exists p. now injection E as <-.
    - intros [->|(Na & p & ->)]; f_equal; apply leq_host_str_iff;
        [now left|]. right. right. split; [exact Na|]. now exists r, p. }
  split; [exact W|]. split; [|split].
  - rewrite leq_host_strings. f_equal.
    destruct (leq_host_str r ("*." ++ r)) eqn:E; [|reflexivity].
    apply leq_host_str_iff in E as [E|[E|(_ & r' & p & E & E')]].
    + apply (f_equal String.length) in E. simpl in E. lia.
    + discriminate.
    + injection E as <-. apply (f_equal String.length) in E'.
      rewrite !length_append in E'. simpl in E'. lia.
  - unfold leq_host. destruct h as [|s]; simpl; [reflexivity|].
    destruct (String.eqb s "*"); reflexivity.
  - destruct h as [|s]; [reflexivity|]. rewrite leq_host_strings. f_equal.
    unfold leq_host_str, pyval_eqb.
    rewrite (String.eqb_sym "*" s), String.eqb_refl.
    destruct (String.eqb s "*"); reflexivity.
Qed.

Lemma leq_host_str_trans (a b c : string) :
  leq_host_str a b = true -> leq_host_str b c = true -> leq_host_str a c = true.
Proof.
  intros H1 H2. apply leq_host_str_iff in H1. apply leq_host_str_iff in H2.
  apply leq_host_str_iff.
  destruct H2 as [<-|[->|(Nb & rc & q & -> & Eb)]]; [exact H1 | now right; left |].
  destruct H1 as [->|[->|(Na & rb & p & -> & ->)]].
  - right. right. split; [exact Nb|]. now exists rc, q.
  - now elim Nb.
  - destruct q as [|x [|y q]]; simpl in Eb; try discriminate.
    + injection Eb as _ ->. right. right. split; [exact Na|]. now exists rc, p.
    + injection Eb as _ _ ->. right. right. split; [exact Na|].
      exists rc, (p ++ "." ++ q). now rewrite !append_assoc.
Qed.

Lemma leq_host_refl (h : pyval) : leq_host h h = Ok true.
Proof.
  unfold leq_host.
  replace (pyval_eqb h h) with true; [reflexivity|].
  symmetry. now apply pyval_eqb_spec.
Qed.

Lemma leq_host_trans (h1 h2 h3 : pyval) :
  leq_host h1 h2 = Ok true -> leq_host h2 h3 = Ok true ->
  leq_host h1 h3 = Ok true.
Proof.
  destruct h1 as [|a], h2 as [|b], h3 as [|c].
  - intros _ _. reflexivity.
  - intros _ H. exact H.
  - intros _ _. reflexivity.
  - unfold leq_host at 1. simpl.
    destruct (String.eqb b "*") eqn:E; simpl; [|discriminate].
    apply String.eqb_eq in E. subst b. intros _.
    rewrite leq_host_strings. intros [= H].
    apply leq_host_str_iff in H as [<-|[->|(N & _)]];
      [reflexivity | reflexivity | now elim N].
  - unfold leq_host at 1. simpl.
    destruct (String.eqb a "*"); simpl; discriminate.
  - unfold leq_host at 1. simpl.
    destruct (String.eqb a "*"); simpl; discriminate.
  - intros _. unfold leq_host at 1. simpl.
    destruct (String.eqb b "*"); simpl; discriminate.
  - rewrite !leq_host_strings. intros [= H1] [= H2]. f_equal.
    eapply leq_host_str_trans; eassumption.
Qed.

(** X2. Where it answers [True], [leq_host] is a partial order on hosts
    ([None] included): reflexive, antisymmetric and transitive. *)
Theorem leq_host_partial_order :
  (forall h, leq_host h h = Ok true)
  /\ (forall h1 h2, leq_host h1 h2 = Ok true -> leq_host h2 h1 = Ok true ->
                    h1 = h2)
  /\ (forall h1 h2 h3, leq_host h1 h2 = Ok true -> leq_host h2 h3 = Ok true ->
                       leq_host h1 h3 = Ok true).
Proof.
  split; [exact leq_host_refl | split; [exact leq_host_antisym | exact leq_host_trans]].
Qed.

(** ** Expressions *)

Lemma exp_eqb_sym (a b : exp) : exp_eqb a b = exp_eqb b a.
Proof.
  destruct (exp_eqb a b) eqn:E, (exp_eqb b a) eqn:F; try reflexivity.
  - apply exp_eqb_spec in E. subst. rewrite exp_eqb_refl in F. discriminate.
  - apply exp_eqb_spec in F. subst. rewrite exp_eqb_refl in E. discriminate.
Qed.

Lemma leq_exp_extremes (e : exp) :
  leq_exp e (EStr "*") = Ok true
  /\ leq_exp (EStr "none") e = Ok true
  /\ leq_exp (EStr "*") e = Ok (exp_eqb e (EStr "*"))
  /\ leq_exp e (EStr "none") = Ok (exp_eqb e (EStr "none")).
Proof.
  repeat split; unfold leq_exp.
  - destruct (exp_eqb e (EStr "*")); reflexivity.
  - rewrite (exp_eqb_sym (EStr "none") e).
    destruct (exp_eqb e (EStr "none")); [reflexivity|].
    destruct (exp_eqb e (EStr "*")); reflexivity.
  - rewrite (exp_eqb_sym (EStr "*") e).
    destruct (exp_eqb e (EStr "*")); reflexivity.
  - destruct (exp_eqb e (EStr "none")); [reflexivity|].
    change (exp_eqb (EStr "none") (EStr "*")) with false. cbv iota.
    destruct (exp_eqb e (EStr "*")); reflexivity.
Qed.

(** X3. ['*'] is the top and ['none'] the bottom of [leq_exp], for every
    expression and without exception: everything is below ['*'], ['none']
    is below everything, ['*'] is below nothing else and nothing else is
    below ['none']. *)
Theorem leq_exp_top_bottom (e : exp) :
  leq_exp e (EStr "*") = Ok true
  /\ leq_exp (EStr "none") e = Ok true
  /\ leq_exp (EStr "*") e = Ok (exp_eqb e (EStr "*"))
  /\ leq_exp e (EStr "none") = Ok (exp_eqb e (EStr "none")).
Proof. exact (leq_exp_extremes e). Qed.

Lemma leq_exp_trans (e1 e2 e3 : exp) :
  policy_exp e1 -> policy_exp e2 -> policy_exp e3 ->
  leq_exp e1 e2 = Ok true -> leq_exp e2 e3 = Ok true -> leq_exp e1 e3 = Ok true.
Proof.
  destruct (leq_exp_extremes e1) as (T1 & _ & S1 & N1).
  destruct (leq_exp_extremes e2) as (T2 & B2 & S2 & N2).
  destruct (leq_exp_extremes e3) as (_ & B3 & S3 & N3).
  destruct e3 as [c|s3 h3]; simpl.
  - intros _ _ [->| ->] H12 H23; [exact T1|].
    rewrite N2 in H23. injection H23 as H23. apply exp_eqb_spec in H23. subst e2.
    rewrite N1 in H12. injection H12 as H12. apply exp_eqb_spec in H12. subst e1.
    reflexivity.
  - destruct e1 as [a|s1 h1]; simpl.
    + intros [->| ->] _ _ H12 H23; [|exact B3].
      rewrite S2 in H12. injection H12 as H12. apply exp_eqb_spec in H12. subst e2.
      exact H23.
    + destruct e2 as [b|s2 h2]; simpl.
      * intros _ [->| ->] _ H12 H23; discriminate.
      * intros _ _ _. rewrite !leq_exp_pairs.
        destruct (exp_eqb (ETup s1 h1) (ETup s2 h2)) eqn:E12.
        { apply exp_eqb_spec in E12. injection E12 as -> ->. intros _ H. exact H. }
        destruct (exp_eqb (ETup s2 h2) (ETup s3 h3)) eqn:E23.
        { apply exp_eqb_spec in E23. injection E23 as -> ->. rewrite E12.
          intros H _. exact H. }
        destruct (String.eqb_spec s1 s2) as [->|]; [|discriminate].
        destruct (String.eqb_spec s2 s3) as [->|]; [|discriminate].
        intros H12 H23.
        destruct (exp_eqb (ETup s3 h1) (ETup s3 h3)); [reflexivity|].
        eapply leq_host_trans; eassumption.
Qed.

(** X4. Where it answers [True], [leq_exp] is a preorder on the expressions
    of the lattice (['*'], ['none'] and the pairs): it is reflexive on every
    expression and transitive. *)
Theorem leq_exp_preorder :
  (forall e, leq_exp e e = Ok true)
  /\ (forall e1 e2 e3,
        policy_exp e1 -> policy_exp e2 -> policy_exp e3 ->
        leq_exp e1 e2 = Ok true -> leq_exp e2 e3 = Ok true ->
        leq_exp e1 e3 = Ok true).
Proof. split; [exact leq_exp_refl | exact leq_exp_trans]. Qed.

(** X5. [meet] never invents an expression: when it returns, the result is
    one of its arguments or ['none'], and it is below both arguments. On
    every expression and without exception, [meet] is idempotent, ['*'] is
    neutral and ['none'] is absorbing. *)
Theorem meet_lower_bound (e1 e2 : exp) :
  (forall r, meet e1 e2 = Ok r ->
     (r = e1 \/ r = e2 \/ r = EStr "none")
     /\ leq_exp r e1 = Ok true /\ leq_exp r e2 = Ok true)
  /\ meet e1 e1 = Ok e1
  /\ meet e1 (EStr "*") = Ok e1 /\ meet (EStr "*") e1 = Ok e1
  /\ meet e1 (EStr "none") = Ok (EStr "none")
  /\ meet (EStr "none") e1 = Ok (EStr "none").
Proof.
  destruct (leq_exp_extremes e1) as (T1 & B1 & S1 & N1).
  destruct (leq_exp_extremes e2) as (_ & B2 & _ & _).
  split; [|repeat split].
  - intros r. unfold meet.
    destruct (leq_exp e1 e2) as [[|]|] eqn:L12; simpl; [| |discriminate].
    + intros [= <-]. repeat split; [now left | apply leq_exp_refl | exact L12].
    + destruct (leq_exp e2 e1) as [[|]|] eqn:L21; simpl; [| |discriminate];
        intros [= <-].
      * repeat split; [now right; left | exact L21 | apply leq_exp_refl].
      * repeat split; [now right; right | exact B1 | exact B2].
  - unfold meet. now rewrite leq_exp_refl.
  - unfold meet. now rewrite T1.
  - unfold meet. rewrite S1.
    destruct (exp_eqb e1 (EStr "*")) eqn:E; simpl.
    + apply exp_eqb_spec in E. now subst.
    + now rewrite T1.
  - unfold meet. rewrite N1.
    destruct (exp_eqb e1 (EStr "none")) eqn:E; simpl.
    + apply exp_eqb_spec in E. now subst.
    + now rewrite B1.
  - unfold meet. now rewrite B1.
Qed.

(** ** Values *)

Lemma leq_val_inner_spec (e : exp) (l : list exp) (found b : bool) :
  leq_val_inner e l found = Ok b ->
  (b = true <->
   found = true \/ exists e2, In e2 l /\ leq_exp e e2 = Ok true).
Proof.
  revert found. induction l as [|x l IH]; intros found; simpl.
  - intros [= <-]. split; [now left|]. intros [H|(e2 & [] & _)]. exact H.
  - destruct (leq_exp e x) as [c|] eqn:L; simpl; [|discriminate].
    intros H. rewrite (IH _ H). split.
    + intros [F|(e2 & I & E)].
      * destruct c; [right; exists x; auto | now left].
      * right. exists e2. auto.
    + intros [F|(e2 & [<-|I] & E)].
      * left. now destruct c.
      * left. rewrite L in E. injection E as ->. reflexivity.
      * right. now exists e2.
Qed.

Lemma leq_val_outer_spec (l1 l2 : list exp) (b : bool) :
  leq_val_outer l1 l2 = Ok b ->
  (b = true <->
   forall e1, In e1 l1 -> exists e2, In e2 l2 /\ leq_exp e1 e2 = Ok true).
Proof.
  induction l1 as [|x l1 IH]; simpl.
  - intros [= <-]. split; [intros _ e1 [] | reflexivity].
  - destruct (leq_val_inner x l2 false) as [f|] eqn:I; simpl; [|discriminate].
    pose proof (leq_val_inner_spec x l2 false f I) as S.
    destruct f; simpl.
    + intros H. rewrite (IH H). split.
      * intros A e1 [<-|H1]; [|now apply A].
        destruct S as [S _]. destruct (S eq_refl) as [F|F]; [discriminate | exact F].
      * intros A e1 H1. apply A. now right.
    + intros [= <-]. split; [discriminate|].
      intros A. apply S. right. apply A. now left.
Qed.

Lemma leq_val_outer_returns (l1 l2 : list exp) :
  Forall comparable l1 -> Forall comparable l2 ->
  exists b, leq_val_outer l1 l2 = Ok b.
Proof.
  intros H1 H2. induction H1 as [|x l1 Hx _ IH]; simpl; [now eexists|].
  destruct (leq_val_inner_comparable x l2 false Hx H2) as (f & -> & _). simpl.
  destruct f; simpl; [exact IH | now eexists].
Qed.

(** X6. When [leq_val(v1, v2)] returns, it returns [True] exactly when
    every element of [v1] is below some element of [v2]; it does return
    when the hosts of both values are strings; and every value is below
    [['*']]. *)
Theorem leq_val_spec (v1 v2 : value) :
  (forall b, leq_val v1 v2 = Ok b ->
     (b = true <->
      forall e1, In e1 (items v1) ->
                 exists e2, In e2 (items v2) /\ leq_exp e1 e2 = Ok true))
  /\ (Forall comparable (items v1) -> Forall comparable (items v2) ->
      returns (leq_val v1 v2))
  /\ leq_val v1 (VList [EStr "*"]) = Ok true.
Proof.
  split; [|split].
  - intros b. apply leq_val_outer_spec.
  - apply leq_val_outer_returns.
  - unfold leq_val. simpl. induction (items v1) as [|x l IH]; simpl; [reflexivity|].
    destruct (leq_exp_extremes x) as (-> & _). simpl. exact IH.
Qed.

Lemma leq_val_spec_witness :
  leq_val (VList [ETup "https" (Some "a.example.com")])
          (VList [ETup "http" (Some "*"); ETup "https" (Some "*.example.com")])
  = Ok true.
Proof.
  destruct (leq_val_spec (VList [ETup "https" (Some "a.example.com")])
              (VList [ETup "http" (Some "*"); ETup "https" (Some "*.example.com")]))
    as (S & R & _).
  destruct R as ([|] & E); [repeat constructor; discriminate
                           | repeat constructor; discriminate | exact E |].
  exfalso. destruct (S false E) as [_ S']. 
  assert (F : false = true); [|discriminate F].
  apply S'. intros e1 [<-|[]].
  exists (ETup "https" (Some "*.example.com")). split; [right; now left | reflexivity].
Defined.

(** X7. [leq_val] is transitive on the values whose hosts are strings. *)
Theorem leq_val_trans (v1 v2 v3 : value) :
  Forall comparable (items v1) -> Forall comparable (items v2) ->
  Forall comparable (items v3) ->
  leq_val v1 v2 = Ok true -> leq_val v2 v3 = Ok true -> leq_val v1 v3 = Ok true.
Proof.
  intros C1 C2 C3 H12 H23.
  pose proof (leq_val_outer_spec (items v1) (items v2)) as S12.
  pose proof (leq_val_outer_spec (items v2) (items v3)) as S23.
  pose proof (leq_val_outer_spec (items v1) (items v3)) as S13.
  destruct (leq_val_outer_returns (items v1) (items v3) C1 C3) as (b & E).
  unfold leq_val in *. rewrite E. f_equal.
  apply (S13 b E). intros e1 I1.
  destruct (proj1 (S12 true H12) eq_refl e1 I1) as (e2 & I2 & L12).
  destruct (proj1 (S23 true H23) eq_refl e2 I2) as (e3 & I3 & L23).
  exists e3. split; [exact I3|].
  rewrite Forall_forall in C1, C2, C3.
  apply (leq_exp_trans e1 e2 e3);
    [apply comparable_policy, C1, I1 | apply comparable_policy, C2, I2
    | apply comparable_policy, C3, I3 | exact L12 | exact L23].
Qed.

Lemma leq_val_trans_witness :
  leq_val (VList [ETup "https" (Some "a.b.com")]) (VList [ETup "https" (Some "*")])
  = Ok true.
Proof.
  apply (leq_val_trans (VList [ETup "https" (Some "a.b.com")])
           (VList [ETup "https" (Some "*.b.com")])
           (VList [ETup "https" (Some "*")]));
    try (repeat constructor; discriminate); reflexivity.
Defined.

(** ** The normalizers *)

Lemma lower_char_idem (c : ascii) : lower_char (lower_char c) = lower_char c.
Proof. destruct c as [[|] [|] [|] [|] [|] [|] [|] [|]]; reflexivity. Qed.

Lemma lower_idem (s : string) : lower (lower s) = lower s.
Proof.
  induction s as [|c s IH]; simpl; [reflexivity|].
  now rewrite lower_char_idem, IH.
Qed.

Section Normalizers.

Variable urlparse : string -> exc ParseResult.

(** X8. A value of [normalize_xfo] is one of the strings ["JUNK"], ["DENY"]
    and ["ALLOW-JUNK"], or a pair tagged ["SAMEORIGIN"] or ["ALLOW-FROM"]
    that holds a valid origin: its scheme is [http] or [https] and its host
    is a non-empty string that does not start with [*.]. *)
Theorem normalize_xfo_values (v o : string) (x : xfo_value) :
  normalize_xfo urlparse v o = Ok x ->
  match x with
  | XStr s => s = "JUNK" \/ s = "DENY" \/ s = "ALLOW-JUNK"
  | XTup tag e =>
      (tag = "SAMEORIGIN" \/ tag = "ALLOW-FROM")
      /\ exists s h, e = ETup s (Some h)
                     /\ (s = "http" \/ s = "https")
                     /\ h <> "" /\ startswith h "*." = false
  end.
Proof.
  assert (V : forall u, is_valid_origin (as_obj u) = true ->
                exists s h, ETup (scheme u) (hostname u) = ETup s (Some h)
                            /\ (s = "http" \/ s = "https")
                            /\ h <> "" /\ startswith h "*." = false).
  { intros [s h]. unfold as_obj. rewrite is_valid_origin_eq. simpl.
    destruct h as [h|]; simpl; [|discriminate]. intros H.
    apply andb_true_iff in H as [H1 H2]. apply andb_true_iff in H2 as [H2 H3].
    apply negb_true_iff in H2, H3. apply String.eqb_neq in H2.
    exists s, h. repeat split; trivial.
    apply orb_true_iff in H1 as [H1|H1]; apply String.eqb_eq in H1; auto. }
  destruct (urlparse (fix_origin o)) as [uo|e] eqn:Ho.
  2:{ unfold normalize_xfo. rewrite Ho. discriminate. }
  destruct (is_valid_origin (as_obj uo)) eqn:Hv.
  2:{ unfold normalize_xfo. rewrite Ho. simpl. rewrite Hv. simpl.
      intros [= <-]. now left. }
  destruct (startswith (lower v) "allow-from ") eqn:Hp.
  - destruct (allow_from_tokens _ Hp) as (rest & t1 & ts & Hl & Hs & _).
    rewrite (allow_from_branch urlparse v o rest t1 ts uo Ho Hv Hl Hs).
    destruct (urlparse t1) as [ue|e]; simpl; [|discriminate].
    destruct (length ts =? 0)%nat; simpl.
    + destruct (is_valid_origin (as_obj ue)) eqn:Hu; intros [= <-].
      * split; [now right | now apply V].
      * do 2 right. reflexivity.
    + intros [= <-]. do 2 right. reflexivity.
  - unfold normalize_xfo. rewrite Ho. simpl. rewrite Hv. simpl. rewrite Hp.
    destruct (String.eqb (lower v) "sameorigin").
    + intros [= <-]. split; [now left | now apply V].
    + destruct (String.eqb (lower v) "deny"); intros [= <-].
      * right. now left.
      * now left.
Qed.

Lemma normalize_csp_token_lower (uo : ParseResult) (e : string) :
  normalize_csp_token urlparse uo (lower e) = normalize_csp_token urlparse uo e.
Proof. unfold normalize_csp_token. now rewrite lower_idem. Qed.

Lemma normalize_csp_loop_lower (uo : ParseResult) (v : list string) :
  normalize_csp_loop urlparse uo (map lower v) = normalize_csp_loop urlparse uo v.
Proof.
  induction v as [|e v IH]; simpl; [reflexivity|].
  now rewrite normalize_csp_token_lower, IH.
Qed.

(** X9. Both normalizers are insensitive to the case of the header value:
    they give the same outcome on a value and on its lower-case form. *)
Theorem normalizers_ignore_case (v o : string) (tokens : list string) :
  normalize_xfo urlparse (lower v) o = normalize_xfo urlparse v o
  /\ normalize_csp urlparse (map lower tokens) o = normalize_csp urlparse tokens o.
Proof.
  split.
  - unfold normalize_xfo. now rewrite lower_idem.
  - unfold normalize_csp.
    destruct (urlparse (fix_origin o)) as [uo|e]; simpl; [|reflexivity].
    now rewrite normalize_csp_loop_lower.
Qed.

Lemma normalize_csp_token_spec (uo : ParseResult) (e : string) :
  (forall x, normalize_csp_token urlparse uo e = Ok x -> policy_exp x)
  /\ (forall r, normalize_csp_token urlparse uo e = Raise r ->
                urlparse (lower e) = Raise r).
Proof.
  unfold normalize_csp_token. cbv zeta.
  repeat match goal with
         | |- context [String.eqb ?a ?b] => destruct (String.eqb a b)
         end; try (split; [intros x [= <-]; simpl; auto | discriminate]).
  destruct (urlparse (lower e)) as [ue|r]; simpl.
  - destruct (String.eqb (scheme ue) ""); split;
      try discriminate; intros x [= <-]; exact I.
  - split; [discriminate|]. now intros r' [= <-].
Qed.

Lemma normalize_csp_loop_spec (uo : ParseResult) (v : list string) :
  (forall l, normalize_csp_loop urlparse uo v = Ok l -> Forall policy_exp l)
  /\ (forall r, normalize_csp_loop urlparse uo v = Raise r ->
                exists e, In e v /\ urlparse (lower e) = Raise r).
Proof.
  induction v as [|e v [IH1 IH2]]; simpl.
  - split; [intros l [= <-]; constructor | discriminate].
  - destruct (normalize_csp_token_spec uo e) as [T1 T2].
    destruct (normalize_csp_token urlparse uo e) as [x|r]; simpl.
    + destruct (normalize_csp_loop urlparse uo v) as [l|r]; simpl.
      * split; [|discriminate]. intros l' [= <-]. constructor; auto.
      * split; [discriminate|]. intros r' [= <-].
        destruct (IH2 r eq_refl) as (e' & I & E). exists e'. auto.
    + split; [discriminate|]. intros r' [= <-]. exists e. auto.
Qed.

Lemma normalize_csp_outcome (tokens : list string) (o : string) :
  (forall r, normalize_csp urlparse tokens o = Ok r ->
     exists uo, urlparse (fix_origin o) = Ok uo
       /\ if is_valid_origin (as_obj uo)
          then exists l, r = VList l /\ length l = length tokens
                         /\ Forall policy_exp l
          else r = VStr "JUNK")
  /\ (forall e, normalize_csp urlparse tokens o = Raise e ->
        urlparse (fix_origin o) = Raise e
        \/ exists t, In t tokens /\ urlparse (lower t) = Raise e).
Proof.
  unfold normalize_csp.
  destruct (urlparse (fix_origin o)) as [uo|e] eqn:Ho; simpl.
  2:{ split; [discriminate|]. intros e' [= <-]. now left. }
  destruct (is_valid_origin (as_obj uo)) eqn:Hv; simpl.
  - destruct (normalize_csp_loop_spec uo tokens) as [L1 L2].
    destruct (normalize_csp_loop urlparse uo tokens) as [l|e] eqn:El; simpl.
    + split; [|discriminate]. intros r [= <-]. exists uo. rewrite Hv.
      split; [reflexivity|]. exists l. repeat split; auto.
      eapply normalize_csp_loop_length, El.
    + split; [discriminate|]. intros e' [= <-]. right. now apply L2.
  - split; [|discriminate]. intros r [= <-]. exists uo. rewrite Hv. auto.
Qed.

(** X10. [normalize_csp] gives the string ["JUNK"] exactly when the page
    origin is not valid, and otherwise a list with one expression of the
    lattice for each token; when it raises, the exception is one [urlparse]
    raised, on the page origin or on a token in lower case. *)
Theorem normalize_csp_spec (tokens : list string) (o : string) :
  (forall r, normalize_csp urlparse tokens o = Ok r ->
     exists uo, urlparse (fix_origin o) = Ok uo
       /\ if is_valid_origin (as_obj uo)
          then exists l, r = VList l /\ length l = length tokens
                         /\ Forall policy_exp l
          else r = VStr "JUNK")
  /\ (forall e, normalize_csp urlparse tokens o = Raise e ->
        urlparse (fix_origin o) = Raise e
        \/ exists t, In t tokens /\ urlparse (lower t) = Raise e).
Proof. exact (normalize_csp_outcome tokens o). Qed.

End Normalizers.

Lemma normalize_xfo_values_witness :
  (("SAMEORIGIN" = "SAMEORIGIN" \/ "SAMEORIGIN" = "ALLOW-FROM")
   /\ exists s h, ETup "https" (Some "example.com") = ETup s (Some h)
                  /\ (s = "http" \/ s = "https")
                  /\ h <> "" /\ startswith h "*." = false).
Proof.
  exact (normalize_xfo_values py_urlparse "SameOrigin" "https://example.com"
           (XTup "SAMEORIGIN" (ETup "https" (Some "example.com"))) eq_refl).
Defined.

Lemma normalize_csp_spec_witness :
  exists uo, py_urlparse (fix_origin "//example.com") = Ok uo
    /\ if is_valid_origin (as_obj uo)
       then exists l, VList [ETup "https" (Some "example.com"); EStr "none"] = VList l
                      /\ length l = 2 /\ Forall policy_exp l
       else VList [ETup "https" (Some "example.com"); EStr "none"] = VStr "JUNK".
Proof.
  exact (proj1 (normalize_csp_spec py_urlparse ["'SELF'"; "'none'"] "//example.com")
           _ eq_refl).
Defined.

(** ** The translators on raw headers *)

(** A raw header value that is not the absence sentinel. *)
Definition present (raw : string) : bool :=
  negb (String.eqb raw "WARN_NO_HEADER").

(** A normalized legacy value on which Firefox and Internet Explorer differ
    from the Chrome family and Opera Mini: ["ALLOW-JUNK"] or a pair tagged
    ["ALLOW-FROM"]. *)
Definition allow_value (x : xfo_value) : bool :=
  xfo_eqb x (XStr "ALLOW-JUNK")
  || match x with
     | XTup tag _ => String.eqb tag "ALLOW-FROM"
     | XStr _ => false
     end.

Lemma split_piece (c : ascii) (s t : string) :
  In t (split c s) -> split c t = [t].
Proof.
  revert t. induction s as [|a s IH]; intros t; simpl.
  - intros [<-|[]]. reflexivity.
  - destruct (Ascii.eqb a c) eqn:E.
    + intros [<-|H]; [reflexivity | now apply IH].
    + destruct (split c s) as [|t0 ts] eqn:S; simpl.
      * intros [<-|[]]. simpl. now rewrite E.
      * intros [<-|H].
        -- simpl. rewrite E. rewrite (IH t0); [reflexivity | now left].
        -- apply IH. now right.
Qed.

Lemma flat_map_pieces (c : ascii) (l : list string) :
  Forall (fun t => split c t = [t]) l -> flat_map (split c) l = l.
Proof.
  induction 1 as [|t l Ht _ IH]; simpl; [reflexivity|].
  now rewrite Ht, IH.
Qed.

Lemma split_commas_idem (xs : list string) :
  split_commas (split_commas xs) = split_commas xs.
Proof.
  unfold split_commas. induction xs as [|x xs IH]; simpl; [reflexivity|].
  rewrite flat_map_app, IH. f_equal.
  apply flat_map_pieces. apply Forall_forall. intros t. apply split_piece.
Qed.

Section RawHeaders.

Variable urlparse : string -> exc ParseResult.

Lemma pol_xfo_app (l1 l2 : list string) (o : string) :
  pol_xfo urlparse (l1 ++ l2)%list o =
  a <- pol_xfo urlparse l1 o ;;
  b <- pol_xfo urlparse l2 o ;;
  Ok (a ++ b)%list.
Proof.
  induction l1 as [|x l1 IH]; simpl.
  - destruct (pol_xfo urlparse l2 o); reflexivity.
  - destruct (parse_xfo x) as [v|]; [|exact IH].
    rewrite IH.
    destruct (normalize_xfo urlparse v o); simpl; [|reflexivity].
    destruct (pol_xfo urlparse l1 o); simpl; [|reflexivity].
    destruct (pol_xfo urlparse l2 o); reflexivity.
Qed.

Lemma pol_xfo_present (xs : list string) (o : string) :
  pol_xfo urlparse (filter present xs) o = pol_xfo urlparse xs o.
Proof.
  induction xs as [|x xs IH]; simpl; [reflexivity|].
  unfold present at 1, parse_xfo.
  destruct (String.eqb x "WARN_NO_HEADER") eqn:E; simpl; [exact IH|].
  unfold parse_xfo. now rewrite E, IH.
Qed.

Lemma pol_csp_present (cs : list string) (o : string) :
  pol_csp urlparse (filter present cs) o = pol_csp urlparse cs o.
Proof.
  induction cs as [|c cs IH]; simpl; [reflexivity|].
  unfold present at 1, parse_csp.
  destruct (String.eqb c "WARN_NO_HEADER") eqn:E; simpl; [exact IH|].
  unfold parse_csp. now rewrite E, IH.
Qed.

Lemma pol_xfo_commas_present (xs : list string) (o : string) :
  pol_xfo urlparse (split_commas (filter present xs)) o
  = pol_xfo urlparse (split_commas xs) o.
Proof.
  unfold split_commas. induction xs as [|x xs IH]; simpl; [reflexivity|].
  unfold present at 1.
  destruct (String.eqb_spec x "WARN_NO_HEADER") as [->|N]; simpl.
  - exact IH.
  - now rewrite !pol_xfo_app, IH.
Qed.

(** X11. The absence sentinel stands for no header: every translator gives
    the same outcome on a bundle and on the bundle without its sentinel
    entries. *)
Theorem absent_headers_have_no_effect (xs cs : list string) (o : string) :
  let p := mk_policies xs cs in
  let q := mk_policies (filter present xs) (filter present cs) in
  t_firefox urlparse q o = t_firefox urlparse p o
  /\ t_chrome urlparse q o = t_chrome urlparse p o
  /\ t_edge urlparse q o = t_edge urlparse p o
  /\ t_explorer urlparse q o = t_explorer urlparse p o
  /\ t_opera_mini urlparse q o = t_opera_mini urlparse p o.
Proof.
  simpl. unfold t_firefox, t_chrome, t_edge, t_explorer, t_opera_mini. simpl.
  rewrite pol_xfo_commas_present, pol_xfo_present, pol_csp_present.
  repeat split; reflexivity.
Qed.

(** X12. Firefox and the Chrome family read a legacy header that joins
    values with commas as the separate headers: the outcome on a bundle is
    the outcome on the bundle whose legacy headers are split on the
    commas. *)
Theorem comma_joined_legacy_headers (xs cs : list string) (o : string) :
  t_firefox urlparse (mk_policies (split_commas xs) cs) o
  = t_firefox urlparse (mk_policies xs cs) o
  /\ t_chrome urlparse (mk_policies (split_commas xs) cs) o
     = t_chrome urlparse (mk_policies xs cs) o.
Proof.
  unfold t_firefox, t_chrome. simpl. rewrite split_commas_idem.
  split; reflexivity.
Qed.

End RawHeaders.

(** Edge and Internet Explorer do not split on the commas. *)
Example edge_does_not_split_commas :
  t_edge py_urlparse (mk_policies ["deny,sameorigin"] []) "https://example.com"
  = Ok (VList [EStr "*"])
  /\ t_edge py_urlparse (mk_policies ["deny"; "sameorigin"] []) "https://example.com"
     = Ok (VList [EStr "none"])
  /\ t_firefox py_urlparse (mk_policies ["deny,sameorigin"] []) "https://example.com"
     = Ok (VList [EStr "none"]).
Proof. repeat split; reflexivity. Qed.

(** ** How the legacy values combine *)

Lemma meet_none_r (e : exp) : meet e (EStr "none") = Ok (EStr "none").
Proof.
  destruct (leq_exp_extremes e) as (_ & B & _ & N). unfold meet. rewrite N.
  destruct (exp_eqb e (EStr "none")) eqn:E; simpl.
  - apply exp_eqb_spec in E. now subst.
  - now rewrite B.
Qed.

Lemma meet_none_l (e : exp) : meet (EStr "none") e = Ok (EStr "none").
Proof.
  destruct (leq_exp_extremes e) as (_ & B & _). unfold meet. now rewrite B.
Qed.

Lemma fold_rule_none (rule : exp -> xfo_value -> exc exp) (px : list xfo_value) :
  (forall x, xfo_shape x -> rule (EStr "none") x = Ok (EStr "none")) ->
  Forall xfo_shape px ->
  fold_rule rule px (EStr "none") = Ok (EStr "none").
Proof.
  intros R. induction 1 as [|x px Hx _ IH]; simpl; [reflexivity|].
  now rewrite (R x Hx).
Qed.

Lemma firefox_rule_none (x : xfo_value) :
  xfo_shape x -> firefox_rule (EStr "none") x = Ok (EStr "none").
Proof.
  intros [->|[->|[->|(tag & s & h & ->)]]]; unfold firefox_rule; simpl;
    apply meet_none_l.
Qed.

Lemma chrome_rule_none (x : xfo_value) :
  xfo_shape x -> chrome_rule (EStr "none") x = Ok (EStr "none").
Proof.
  intros [->|[->|[->|(tag & s & h & ->)]]]; unfold chrome_rule; simpl;
    try apply meet_none_l.
  destruct (String.eqb tag "ALLOW-FROM"); simpl; apply meet_none_l.
Qed.

(** A fold that meets a ["DENY"] ends on ['none']. *)
Lemma fold_rule_deny (rule : exp -> xfo_value -> exc exp)
    (px : list xfo_value) (res : exp) :
  (forall a x, comparable a -> xfo_shape x ->
               exists r, rule a x = Ok r /\ comparable r) ->
  (forall x, xfo_shape x -> rule (EStr "none") x = Ok (EStr "none")) ->
  (forall a, rule a (XStr "DENY") = Ok (EStr "none")) ->
  comparable res -> Forall xfo_shape px -> In (XStr "DENY") px ->
  fold_rule rule px res = Ok (EStr "none").
Proof.
  intros Rc Rn Rd Hres Hpx. revert res Hres.
  induction Hpx as [|x px Hx Hpx IH]; intros res Hres; simpl; [intros []|].
  intros [->|Hin].
  - rewrite Rd. simpl. now apply fold_rule_none.
  - destruct (Rc res x Hres Hx) as (r & -> & Hr). simpl. now apply IH.
Qed.

Section Combination.

Variable urlparse : string -> exc ParseResult.

Lemma pol_xfo_in (xs : list string) (o : string) (px : list xfo_value)
    (x v : string) :
  pol_xfo urlparse xs o = Ok px -> In x xs -> parse_xfo x = Some v ->
  exists nx, normalize_xfo urlparse v o = Ok nx /\ In nx px.
Proof.
  revert px. induction xs as [|y xs IH]; intros px; simpl; [intros _ []|].
  intros H [->|Hin] Hv.
  - rewrite Hv in H.
    destruct (normalize_xfo urlparse v o) as [nx|]; simpl in H; [|discriminate].
    destruct (pol_xfo urlparse xs o); simpl in H; [|discriminate].
    injection H as <-. exists nx. split; [reflexivity | now left].
  - destruct (parse_xfo y) as [w|]; [|now apply IH].
    destruct (normalize_xfo urlparse w o) as [ny|]; simpl in H; [|discriminate].
    destruct (pol_xfo urlparse xs o) as [rest|]; simpl in H; [|discriminate].
    injection H as <-. destruct (IH rest eq_refl Hin Hv) as (nx & E & I).
    exists nx. split; [exact E | now right].
Qed.

(** X13. [DENY] wins in Firefox and in the Chrome family: for a valid page
    origin and without a modern header, when one of the legacy values (after
    the split on commas) is [deny], in any case and with white space around
    it, and the normalization of the legacy values raises nothing, both
    translators return [['none']], wherever that value stands among the
    others. *)
Theorem deny_dominates (p : policies) (o : string) (uo : ParseResult)
    (px : list xfo_value) (x : string) :
  urlparse (fix_origin o) = Ok uo ->
  is_valid_origin (as_obj uo) = true ->
  Forall absent (csp p) ->
  pol_xfo urlparse (split_commas (xfo p)) o = Ok px ->
  In x (split_commas (xfo p)) ->
  lower (strip x) = "deny" ->
  t_firefox urlparse p o = Ok (VList [EStr "none"])
  /\ t_chrome urlparse p o = Ok (VList [EStr "none"]).
Proof.
  intros Ho Hv Hc Hpx Hin Hx.
  assert (Hp : parse_xfo x = Some (strip x)).
  { unfold parse_xfo. destruct (String.eqb_spec x "WARN_NO_HEADER") as [->|];
      [discriminate Hx | reflexivity]. }
  destruct (pol_xfo_in _ _ _ _ _ Hpx Hin Hp) as (nx & En & In_px).
  assert (nx = XStr "DENY") as ->.
  { unfold normalize_xfo in En. rewrite Ho in En. simpl in En.
    rewrite Hv, Hx in En. simpl in En. now injection En as <-. }
  pose proof (pol_xfo_shape urlparse _ _ _ Hpx) as S.
  unfold t_firefox, t_chrome. rewrite Hpx, (pol_csp_absent urlparse _ o Hc). simpl.
  destruct px as [|y px]; [destruct In_px|]. split.
  - rewrite (fold_rule_deny firefox_rule (y :: px) (EStr "*")); trivial.
    + exact firefox_rule_comparable.
    + exact firefox_rule_none.
    + intros a. unfold firefox_rule. simpl. apply meet_none_r.
    + now left.
  - rewrite (fold_rule_deny chrome_rule (y :: px) (EStr "*")); trivial.
    + exact chrome_rule_comparable.
    + exact chrome_rule_none.
    + intros a. unfold chrome_rule. simpl. apply meet_none_r.
    + now left.
Qed.

Lemma pol_csp_nil_inv (cs : list string) (o : string) :
  pol_csp urlparse cs o = Ok [] -> Forall absent cs.
Proof.
  induction cs as [|c cs IH]; simpl; [constructor|].
  unfold parse_csp. destruct (String.eqb_spec c "WARN_NO_HEADER") as [->|N].
  - intros H. constructor; [reflexivity | now apply IH].
  - destruct (normalize_csp urlparse _ o); simpl; [|discriminate].
    destruct (pol_csp urlparse cs o); simpl; discriminate.
Qed.

Lemma rules_agree (res : exp) (x : xfo_value) :
  xfo_shape x -> allow_value x = false ->
  chrome_rule res x = firefox_rule res x.
Proof.
  intros [->|[->|[->|(tag & s & h & ->)]]]; unfold allow_value; simpl;
    try reflexivity; try discriminate.
  intros E. unfold chrome_rule, firefox_rule. simpl. now rewrite E.
Qed.

Lemma fold_rules_agree (px : list xfo_value) (res : exp) :
  Forall xfo_shape px -> forallb (fun x => negb (allow_value x)) px = true ->
  fold_rule chrome_rule px res = fold_rule firefox_rule px res.
Proof.
  intros S. revert res. induction S as [|x px Hx _ IH]; intros res; simpl;
    [reflexivity|].
  intros H. apply andb_true_iff in H as [H1 H2]. apply negb_true_iff in H1.
  rewrite (rules_agree res x Hx H1).
  destruct (firefox_rule res x); simpl; [now apply IH | reflexivity].
Qed.

(** X14. Firefox and the Chrome family give the same outcome whenever a
    modern header is present, and also without one when no legacy value
    (after the split on commas) normalizes to ["ALLOW-JUNK"] or to an
    [ALLOW-FROM] pair: the two translators differ on those values only. *)
Theorem firefox_chrome_agree (p : policies) (o : string) :
  ((exists c, In c (csp p) /\ c <> "WARN_NO_HEADER") ->
   t_chrome urlparse p o = t_firefox urlparse p o)
  /\ (forall px, pol_xfo urlparse (split_commas (xfo p)) o = Ok px ->
        forallb (fun x => negb (allow_value x)) px = true ->
        t_chrome urlparse p o = t_firefox urlparse p o).
Proof.
  unfold t_chrome, t_firefox. split.
  - intros (c & Hin & Hc).
    destruct (pol_xfo urlparse (split_commas (xfo p)) o); simpl; [|reflexivity].
    destruct (pol_csp urlparse (csp p) o) as [[|v r]|] eqn:E; simpl; try reflexivity.
    apply pol_csp_nil_inv in E. rewrite Forall_forall in E.
    elim Hc. now apply E.
  - intros px Hpx Hal. rewrite Hpx. simpl.
    destruct (pol_csp urlparse (csp p) o) as [[|v r]|]; simpl; try reflexivity.
    destruct px as [|x px]; [reflexivity|].
    rewrite (fold_rules_agree (x :: px) (EStr "*")); trivial.
    eapply pol_xfo_shape, Hpx.
Qed.

(** X15. Without a modern header Edge gives the outcome of Internet
    Explorer; and Opera Mini gives the outcome of Internet Explorer unless
    the first legacy value normalizes to ["ALLOW-JUNK"] or to an
    [ALLOW-FROM] pair, in which case Opera Mini returns [['*']]. *)
Theorem single_value_translators (p : policies) (o : string) :
  (Forall absent (csp p) -> t_edge urlparse p o = t_explorer urlparse p o)
  /\ (forall px, pol_xfo urlparse (xfo p) o = Ok px ->
        match px with
        | [] => t_opera_mini urlparse p o = t_explorer urlparse p o
        | x :: _ =>
            if allow_value x
            then t_opera_mini urlparse p o = Ok (VList [EStr "*"])
            else t_opera_mini urlparse p o = t_explorer urlparse p o
        end).
Proof.
  split.
  - intros Hc. unfold t_edge, t_explorer.
    rewrite (pol_csp_absent urlparse _ o Hc). simpl.
    destruct (pol_xfo urlparse (xfo p) o); reflexivity.
  - intros px Hpx. pose proof (pol_xfo_shape urlparse _ _ _ Hpx) as S.
    unfold t_opera_mini, t_explorer. rewrite Hpx. simpl.
    destruct px as [|x px]; [reflexivity|].
    inversion S as [|? ? Sx _]; subst.
    destruct Sx as [->|[->|[->|(tag & s & h & ->)]]]; simpl; try reflexivity.
    unfold allow_value. simpl. destruct (String.eqb tag "ALLOW-FROM"); reflexivity.
Qed.

End Combination.

Lemma deny_dominates_witness :
  t_firefox py_urlparse (mk_policies ["SAMEORIGIN, Deny "; "allow-from https://a.com"] [])
    "https://example.com" = Ok (VList [EStr "none"])
  /\ t_chrome py_urlparse (mk_policies ["SAMEORIGIN, Deny "; "allow-from https://a.com"] [])
       "https://example.com" = Ok (VList [EStr "none"]).
Proof.
  apply (deny_dominates py_urlparse
           (mk_policies ["SAMEORIGIN, Deny "; "allow-from https://a.com"] [])
           "https://example.com" (mk_parse "https" (Some "example.com"))
           [XTup "SAMEORIGIN" (ETup "https" (Some "example.com")); XStr "DENY";
            XTup "ALLOW-FROM" (ETup "https" (Some "a.com"))]
           " Deny ");
    try reflexivity.
  - constructor.
  - simpl. right. now left.
Defined.

Lemma firefox_chrome_agree_witness :
  t_chrome py_urlparse (mk_policies ["allow-from https://a.com"] ["WARN_NO_HEADER"; "*"])
    "https://example.com"
  = t_firefox py_urlparse (mk_policies ["allow-from https://a.com"] ["WARN_NO_HEADER"; "*"])
      "https://example.com".
Proof.
  apply (firefox_chrome_agree py_urlparse
           (mk_policies ["allow-from https://a.com"] ["WARN_NO_HEADER"; "*"])
           "https://example.com").
  exists "*". split; [simpl; auto | discriminate].
Defined.

Lemma single_value_translators_witness :
  t_edge py_urlparse (mk_policies ["sameorigin"] ["WARN_NO_HEADER"]) "https://example.com"
  = t_explorer py_urlparse (mk_policies ["sameorigin"] ["WARN_NO_HEADER"]) "https://example.com"
  /\ t_opera_mini py_urlparse (mk_policies ["allow-from x"] []) "https://example.com"
     = Ok (VList [EStr "*"]).
Proof.
  split.
  - apply (single_value_translators py_urlparse
             (mk_policies ["sameorigin"] ["WARN_NO_HEADER"]) "https://example.com").
    constructor; [reflexivity | constructor].
  - exact (proj2 (single_value_translators py_urlparse
                    (mk_policies ["allow-from x"] []) "https://example.com")
             [XStr "ALLOW-JUNK"] eq_refl).
Defined.

(** ** The analyzer on every input *)

(** The User-Agent strings [translate] knows. *)
Definition supported (b : string) : bool :=
  mem b [FIREFOX; CHROME; SAFARI; SAFARI_IOS; SAMSUNG; UC_BROWSER; IE; OPERA_MINI; EDGE].

Lemma remove_duplicates_in (x : value) (l acc : list value) :
  In x (remove_duplicates l acc) <-> In x l \/ In x acc.
Proof.
  revert acc. induction l as [|y l IH]; intros acc; simpl.
  - tauto.
  - destruct (mem_value y acc) eqn:M; rewrite IH.
    + apply mem_value_spec in M. split; [tauto|].
      intros [[<-|H]|H]; auto.
    + rewrite in_app_iff. simpl. tauto.
Qed.

Lemma just_xfo_cases (b : string) :
  just_xfo b = true -> b = IE \/ b = OPERA_MINI.
Proof.
  unfold just_xfo, mem. cbn [existsb]. intros H.
  apply orb_true_iff in H as [H|H]; [left; now apply String.eqb_eq|].
  apply orb_true_iff in H as [H|H]; [right; now apply String.eqb_eq | discriminate].
Qed.

Section AnalyzerFacts.

Variable urlparse : string -> exc ParseResult.

Lemma translate_supported (p : policies) (b o : string) :
  supported b = false -> translate urlparse p b o = Raise SystemExit.
Proof.
  unfold supported, translate, mem. cbn [existsb]. intros H.
  repeat (apply orb_false_iff in H as [?E H]).
  rewrite E, E0, E1, E2, E3, E4, E5, E6, E7. reflexivity.
Qed.

Lemma collect_spec (p : site_data) (bs : list string) (o : string)
    (s0 s : semantics) :
  collect urlparse p bs o s0 = Ok s ->
  (forall b, In b bs ->
     exists pb v, getitem p b = Ok pb /\ translate urlparse pb b o = Ok v)
  /\ (forall v, In v (sem_xfo s) <->
        In v (sem_xfo s0)
        \/ exists b pb, In b bs /\ just_xfo b = true
             /\ getitem p b = Ok pb /\ translate urlparse pb b o = Ok v)
  /\ (forall v, In v (sem_csp s) <->
        In v (sem_csp s0)
        \/ exists b pb, In b bs /\ just_xfo b = false
             /\ getitem p b = Ok pb /\ translate urlparse pb b o = Ok v).
Proof.
  revert s0. induction bs as [|b bs IH]; intros s0; simpl.
  - intros [= <-]. repeat split; try tauto; try (intros _ []).
    + intros [H|(b & pb & [] & _)]. exact H.
    + intros [H|(b & pb & [] & _)]. exact H.
  - destruct (getitem p b) as [pb|] eqn:G; simpl; [|discriminate].
    destruct (translate urlparse pb b o) as [v|] eqn:T; simpl; [|discriminate].
    intros H. destruct (IH _ H) as (A & X & C). clear IH H.
    split; [|split].
    + intros b' [<-|Hin]; [now exists pb, v | now apply A].
    + intros w. rewrite X. destruct (just_xfo b) eqn:J; simpl.
      * rewrite in_app_iff. simpl. split.
        -- intros [[H|[<-|[]]]|(b' & pb' & I & R)]; auto.
           ++ right. exists b, pb. auto.
           ++ right. exists b', pb'. tauto.
        -- intros [H|(b' & pb' & [<-|I] & J' & G' & T')]; auto.
           ++ left. right. left. congruence.
           ++ right. exists b', pb'. auto.
      * split.
        -- intros [H|(b' & pb' & I & R)]; auto. right. exists b', pb'. tauto.
        -- intros [H|(b' & pb' & [<-|I] & J' & G' & T')]; auto.
           ++ congruence.
           ++ right. exists b', pb'. auto.
    + intros w. rewrite C. destruct (just_xfo b) eqn:J; simpl.
      * split.
        -- intros [H|(b' & pb' & I & R)]; auto. right. exists b', pb'. tauto.
        -- intros [H|(b' & pb' & [<-|I] & J' & G' & T')]; auto.
           ++ congruence.
           ++ right. exists b', pb'. auto.
      * rewrite in_app_iff. simpl. split.
        -- intros [[H|[<-|[]]]|(b' & pb' & I & R)]; auto.
           ++ right. exists b, pb. auto.
           ++ right. exists b', pb'. tauto.
        -- intros [H|(b' & pb' & [<-|I] & J' & G' & T')]; auto.
           ++ left. right. left. congruence.
           ++ right. exists b', pb'. auto.
Qed.

Lemma in_partition (ks : list string) (b : string) :
  In b (filter just_xfo ks ++ filter (fun b => negb (just_xfo b)) ks)%list
  <-> In b ks.
Proof.
  rewrite in_app_iff, !filter_In. destruct (just_xfo b); simpl; intuition congruence.
Qed.

(** The buckets of a report, before the claims on it. *)
Lemma report_spec (p : site_data) (o : string) (s : semantics) :
  find_inconsistencies urlparse p o = Ok s ->
  (forall b, In b (keys p) ->
     exists pb v, getitem p b = Ok pb /\ translate urlparse pb b o = Ok v)
  /\ (forall v, In v (sem_xfo s) <->
        exists b pb, In b (keys p) /\ just_xfo b = true
          /\ getitem p b = Ok pb /\ translate urlparse pb b o = Ok v)
  /\ (forall v, In v (sem_csp s) <->
        exists b pb, In b (keys p) /\ just_xfo b = false
          /\ getitem p b = Ok pb /\ translate urlparse pb b o = Ok v).
Proof.
  unfold find_inconsistencies.
  destruct (collect _ _ _ _ _) as [c|] eqn:E; simpl; [|discriminate].
  intros [= <-]. simpl. destruct (collect_spec _ _ _ _ _ E) as (A & X & C).
  split; [|split].
  - intros b Hb. apply A. now apply in_partition.
  - intros v. rewrite remove_duplicates_in, X. simpl. split.
    + intros [[[]|(b & pb & I & R)]|[]]. exists b, pb.
      split; [now apply in_partition | exact R].
    + intros (b & pb & I & R). left. right. exists b, pb.
      split; [now apply in_partition | exact R].
  - intros v. rewrite remove_duplicates_in, C. simpl. split.
    + intros [[[]|(b & pb & I & R)]|[]]. exists b, pb.
      split; [now apply in_partition | exact R].
    + intros (b & pb & I & R). left. right. exists b, pb.
      split; [now apply in_partition | exact R].
Qed.

(** X16. A report exists only for supported browsers: when
    [find_inconsistencies] returns, every key of the data is one of the nine
    User-Agent strings [translate] knows; with any other key it raises
    (at the latest the [SystemExit] of [translate]). *)
Theorem report_needs_supported_browsers (p : site_data) (o : string) :
  (forall s, find_inconsistencies urlparse p o = Ok s ->
             forall b, In b (keys p) -> supported b = true)
  /\ ((exists b, In b (keys p) /\ supported b = false) ->
      exists e, find_inconsistencies urlparse p o = Raise e).
Proof.
  assert (A : forall s, find_inconsistencies urlparse p o = Ok s ->
                        forall b, In b (keys p) -> supported b = true).
  { intros s H b Hb. destruct (report_spec p o s H) as (K & _).
    destruct (K b Hb) as (pb & v & _ & T).
    destruct (supported b) eqn:S; [reflexivity|].
    rewrite (translate_supported pb b o S) in T. discriminate. }
  split; [exact A|].
  intros (b & Hb & S).
  destruct (find_inconsistencies urlparse p o) as [s|e] eqn:F; [|now exists e].
  rewrite (A s eq_refl b Hb) in S. discriminate.
Qed.

(** X17. The buckets of a report are the translations, without
    repetition: a value is in the legacy bucket exactly when it is the
    translation of the policies of a key that is Internet Explorer or Opera
    Mini, and in the modern bucket exactly when it is the translation of
    the policies of another key; no bucket holds a value twice. *)
Theorem report_buckets (p : site_data) (o : string) (s : semantics) :
  find_inconsistencies urlparse p o = Ok s ->
  (forall v, In v (sem_xfo s) <->
     exists b pb, In b (keys p) /\ just_xfo b = true
       /\ getitem p b = Ok pb /\ translate urlparse pb b o = Ok v)
  /\ (forall v, In v (sem_csp s) <->
     exists b pb, In b (keys p) /\ just_xfo b = false
       /\ getitem p b = Ok pb /\ translate urlparse pb b o = Ok v)
  /\ NoDup (sem_xfo s) /\ NoDup (sem_csp s).
Proof.
  intros H. destruct (report_spec p o s H) as (_ & X & C).
  split; [exact X | split; [exact C|]].
  eapply find_inconsistencies_nodup, H.
Qed.

(** X18. Every value of the legacy bucket of a report is a list of one
    expression, ['*'], ['none'] or a pair whose host is a string; so the
    comparison of two values of that bucket by [leq_val] never raises. *)
Theorem legacy_bucket_values (p : site_data) (o : string) (s : semantics) :
  find_inconsistencies urlparse p o = Ok s ->
  (forall v, In v (sem_xfo s) -> exists e, v = VList [e] /\ comparable e)
  /\ (forall v1 v2, In v1 (sem_xfo s) -> In v2 (sem_xfo s) ->
        returns (leq_val v1 v2)).
Proof.
  intros H. destruct (report_spec p o s H) as (_ & X & _).
  assert (A : forall v, In v (sem_xfo s) -> exists e, v = VList [e] /\ comparable e).
  { intros v Hv. apply X in Hv as (b & pb & _ & J & _ & T).
    apply just_xfo_cases in J as [-> | ->].
    - change (translate urlparse pb IE o) with (t_explorer urlparse pb o) in T.
      destruct (pol_xfo urlparse (xfo pb) o) as [px|] eqn:E.
      + destruct (t_explorer_singleton urlparse pb o px E) as (e & He & Hc & _).
        exists e. split; [congruence | exact Hc].
      + unfold t_explorer in T. rewrite E in T. discriminate.
    - change (translate urlparse pb OPERA_MINI o)
        with (t_opera_mini urlparse pb o) in T.
      destruct (pol_xfo urlparse (xfo pb) o) as [px|] eqn:E.
      + destruct (t_opera_mini_singleton urlparse pb o px E) as (e & He & Hc & _).
        exists e. split; [congruence | exact Hc].
      + unfold t_opera_mini in T. rewrite E in T. discriminate. }
  split; [exact A|].
  intros v1 v2 H1 H2.
  destruct (A v1 H1) as (e1 & -> & C1). destruct (A v2 H2) as (e2 & -> & C2).
  apply leq_val_outer_returns; repeat constructor; assumption.
Qed.

End AnalyzerFacts.

(** ** Classification *)

(** X19. A report is consistent exactly when it is both security oriented
    and compatibility oriented; and when a bucket holds more than one value
    it is neither. *)
Theorem consistent_iff_oriented (s : semantics) :
  (is_inconsistent s = Ok false <->
     is_sec_oriented s = Ok true /\ is_comp_oriented s = Ok true)
  /\ (1 < length (sem_xfo s) \/ 1 < length (sem_csp s) ->
      is_sec_oriented s = Ok false /\ is_comp_oriented s = Ok false).
Proof.
  destruct s as [[|x [|x' sx]] [|c [|c' sc]]]; simpl;
    (split; [|intros [H|H]; simpl in H; try lia; split; reflexivity]);
    try (split; [intros H | intros [H1 H2]]; try discriminate;
         try (split; reflexivity); reflexivity).
  unfold is_inconsistent, is_sec_oriented, is_comp_oriented. simpl.
  destruct (leq_val x c) as [[|]|], (leq_val c x) as [[|]|]; simpl;
    split; try (intros [H1 H2]); try intros H; try discriminate;
    try (split; reflexivity); reflexivity.
Qed.

(** The status line [analyze] prints. *)
Inductive status : Type :=
| Consistent
| SecurityOriented
| CompatibilityOriented
| Inconstancy.

(** [analyze] of [showcases.py]: the report is computed and classified; the
    value is the status that is printed. *)
Definition analyze (urlparse : string -> exc ParseResult) (site : string)
    (data : site_data) : exc status :=
  inc <- find_inconsistencies urlparse data site ;;
  i <- is_inconsistent inc ;;
  if i then
    sec <- is_sec_oriented inc ;;
    if sec then Ok SecurityOriented
    else comp <- is_comp_oriented inc ;;
         if comp then Ok CompatibilityOriented else Ok Inconstancy
  else Ok Consistent.

(** X20. The status [analyze] prints for a report: [Inconstancy] when a
    bucket holds more than one value; [Consistent] when no bucket holds more
    than one value and one is empty; and with one value [v1] on the legacy
    side and one value [v2] on the modern side, [Consistent] when each is
    below the other, [SecurityOriented] when only [v1] is below [v2],
    [CompatibilityOriented] when only [v2] is below [v1], and [Inconstancy]
    when neither is. *)
Theorem analyze_status (urlparse : string -> exc ParseResult) (site : string)
    (data : site_data) (inc : semantics) :
  find_inconsistencies urlparse data site = Ok inc ->
  (1 < length (sem_xfo inc) \/ 1 < length (sem_csp inc) ->
   analyze urlparse site data = Ok Inconstancy)
  /\ (length (sem_xfo inc) <= 1 -> length (sem_csp inc) <= 1 ->
      sem_xfo inc = [] \/ sem_csp inc = [] ->
      analyze urlparse site data = Ok Consistent)
  /\ (forall v1 v2 a b,
        sem_xfo inc = [v1] -> sem_csp inc = [v2] ->
        leq_val v1 v2 = Ok a -> leq_val v2 v1 = Ok b ->
        analyze urlparse site data =
        Ok (match a, b with
            | true, true => Consistent
            | true, false => SecurityOriented
            | false, true => CompatibilityOriented
            | false, false => Inconstancy
            end)).
Proof.
  intros F. unfold analyze. rewrite F. simpl. split; [|split].
  - intros H. rewrite (is_inconsistent_several inc H). simpl.
    unfold is_sec_oriented, is_comp_oriented.
    replace ((1 <? length (sem_xfo inc)) || (1 <? length (sem_csp inc)))%nat
      with true; [reflexivity|].
    symmetry. apply orb_true_iff. now rewrite !Nat.ltb_lt.
  - intros Lx Lc E. now rewrite (is_inconsistent_empty_bucket inc Lx Lc E).
  - intros v1 v2 a b Hx Hc Ha Hb. destruct inc as [sx sc]. simpl in Hx, Hc.
    subst. unfold is_inconsistent, is_sec_oriented, is_comp_oriented. simpl.
    rewrite Ha, Hb. destruct a, b; simpl; rewrite ?Ha, ?Hb; reflexivity.
Qed.

Lemma analyze_status_witness :
  analyze py_urlparse "https://example.com"
    [(IE, mk_policies ["sameorigin"] []); (EDGE, mk_policies [] ["*"])]
  = Ok SecurityOriented.
Proof.
  destruct (analyze_status py_urlparse "https://example.com"
              [(IE, mk_policies ["sameorigin"] []); (EDGE, mk_policies [] ["*"])]
              (mk_semantics [VList [ETup "https" (Some "example.com")]]
                            [VList [EStr "*"]]) eq_refl) as (_ & _ & H).
  exact (H _ _ true false eq_refl eq_refl eq_refl eq_refl).
Defined.

(** [main] of [showcases.py] gives strings where the translators iterate
    lists, so that each header is read character by character: Firefox
    enforces the pair of [https] and the quote character, Chrome ['*'], and
    the status printed is [Inconstancy]. *)
Example main_status :
  analyze py_urlparse "https://example.com"
    [(FIREFOX, mk_policies (chars "SAMEORIGIN") (chars "'self'"));
     (CHROME, mk_policies (chars "https://google.com") (chars "*"))]
  = Ok Inconstancy.
Proof. vm_compute. reflexivity. Qed.

(** ** The page origin and the exceptions *)

Lemma getitem_keys (p : site_data) (b : string) :
  In b (keys p) -> exists pb, getitem p b = Ok pb.
Proof.
  induction p as [|[k v] p IH]; simpl; [intros []|].
  destruct (String.eqb_spec k b) as [->|N]; [now exists v|].
  intros [H|H]; [now elim N | now apply IH].
Qed.

Section Outcomes.

Variable urlparse : string -> exc ParseResult.

Lemma normalize_same_origin (o o' : string) :
  fix_origin o = fix_origin o' ->
  (forall v, normalize_xfo urlparse v o = normalize_xfo urlparse v o')
  /\ (forall t, normalize_csp urlparse t o = normalize_csp urlparse t o').
Proof.
  intros E. split; intros x; unfold normalize_xfo, normalize_csp; now rewrite E.
Qed.

Lemma pol_same_origin (o o' : string) :
  fix_origin o = fix_origin o' ->
  (forall xs, pol_xfo urlparse xs o = pol_xfo urlparse xs o')
  /\ (forall cs, pol_csp urlparse cs o = pol_csp urlparse cs o').
Proof.
  intros E. destruct (normalize_same_origin o o' E) as [X C]. split.
  - induction xs as [|x xs IH]; simpl; [reflexivity|].
    destruct (parse_xfo x); [now rewrite X, IH | exact IH].
  - induction cs as [|c cs IH]; simpl; [reflexivity|].
    destruct (parse_csp c); [now rewrite C, IH | exact IH].
Qed.

(** X21. A protocol-relative page origin is read as an [https] origin: the
    normalizers and the five translators give on [//rest] the outcome they
    give on [https://rest]. *)
Theorem protocol_relative_origin (rest v : string) (tokens : list string)
    (p : policies) :
  normalize_xfo urlparse v ("//" ++ rest) = normalize_xfo urlparse v ("https://" ++ rest)
  /\ normalize_csp urlparse tokens ("//" ++ rest)
     = normalize_csp urlparse tokens ("https://" ++ rest)
  /\ t_firefox urlparse p ("//" ++ rest) = t_firefox urlparse p ("https://" ++ rest)
  /\ t_chrome urlparse p ("//" ++ rest) = t_chrome urlparse p ("https://" ++ rest)
  /\ t_edge urlparse p ("//" ++ rest) = t_edge urlparse p ("https://" ++ rest)
  /\ t_explorer urlparse p ("//" ++ rest) = t_explorer urlparse p ("https://" ++ rest)
  /\ t_opera_mini urlparse p ("//" ++ rest)
     = t_opera_mini urlparse p ("https://" ++ rest).
Proof.
  assert (E : fix_origin ("//" ++ rest) = fix_origin ("https://" ++ rest)).
  { unfold fix_origin, startswith. simpl. destruct rest; reflexivity. }
  destruct (normalize_same_origin _ _ E) as [X C].
  destruct (pol_same_origin _ _ E) as [PX PC].
  unfold t_firefox, t_chrome, t_edge, t_explorer, t_opera_mini.
  rewrite !PX, !PC, X, C. repeat split; reflexivity.
Qed.

Lemma pol_xfo_raise (xs : list string) (o : string) (e : exn) :
  pol_xfo urlparse xs o = Raise e -> exists s, urlparse s = Raise e.
Proof.
  induction xs as [|x xs IH]; simpl; [discriminate|].
  destruct (parse_xfo x) as [v|]; [|exact IH].
  destruct (normalize_xfo_outcome urlparse v o)
    as [(nx & ->)|(e' & -> & [R|(t & _ & R)])]; simpl.
  - destruct (pol_xfo urlparse xs o); simpl; [discriminate|].
    intros [= <-]. now apply IH.
  - intros [= <-]. eauto.
  - intros [= <-]. eauto.
Qed.

Lemma pol_csp_raise (cs : list string) (o : string) (e : exn) :
  pol_csp urlparse cs o = Raise e -> exists s, urlparse s = Raise e.
Proof.
  induction cs as [|c cs IH]; simpl; [discriminate|].
  destruct (parse_csp c) as [v|]; [|exact IH].
  destruct (normalize_csp_outcome urlparse v o) as [_ R].
  destruct (normalize_csp urlparse v o) as [nc|e']; simpl.
  - destruct (pol_csp urlparse cs o); simpl; [discriminate|].
    intros [= <-]. now apply IH.
  - intros [= <-]. destruct (R e' eq_refl) as [H|(t & _ & H)]; eauto.
Qed.

Lemma translate_raise (p : policies) (b o : string) (e : exn) :
  translate urlparse p b o = Raise e ->
  (supported b = false /\ e = SystemExit) \/ exists s, urlparse s = Raise e.
Proof.
  assert (TF : t_firefox urlparse p o = Raise e -> exists s, urlparse s = Raise e).
  { unfold t_firefox.
    destruct (pol_xfo urlparse (split_commas (xfo p)) o) as [px|e1] eqn:X; simpl;
      [|intros [= <-]; eapply pol_xfo_raise, X].
    destruct (pol_csp urlparse (csp p) o) as [[|c r]|e1] eqn:C; simpl;
      [| discriminate | intros [= <-]; eapply pol_csp_raise, C].
    destruct px as [|x px]; [discriminate|].
    destruct (fold_rule_comparable firefox_rule (x :: px) (EStr "*")
                firefox_rule_comparable (or_introl eq_refl)
                (pol_xfo_shape urlparse _ _ _ X)) as (r & -> & _).
    discriminate. }
  assert (TC : t_chrome urlparse p o = Raise e -> exists s, urlparse s = Raise e).
  { unfold t_chrome.
    destruct (pol_xfo urlparse (split_commas (xfo p)) o) as [px|e1] eqn:X; simpl;
      [|intros [= <-]; eapply pol_xfo_raise, X].
    destruct (pol_csp urlparse (csp p) o) as [[|c r]|e1] eqn:C; simpl;
      [| discriminate | intros [= <-]; eapply pol_csp_raise, C].
    destruct px as [|x px]; [discriminate|].
    destruct (fold_rule_comparable chrome_rule (x :: px) (EStr "*")
                chrome_rule_comparable (or_introl eq_refl)
                (pol_xfo_shape urlparse _ _ _ X)) as (r & -> & _).
    discriminate. }
  assert (TX : t_explorer urlparse p o = Raise e -> exists s, urlparse s = Raise e).
  { destruct (pol_xfo urlparse (xfo p) o) as [px|e1] eqn:X.
    - destruct (t_explorer_singleton urlparse p o px X) as (r & -> & _).
      discriminate.
    - unfold t_explorer. rewrite X. simpl. intros [= <-]. eapply pol_xfo_raise, X. }
  assert (TO : t_opera_mini urlparse p o = Raise e -> exists s, urlparse s = Raise e).
  { destruct (pol_xfo urlparse (xfo p) o) as [px|e1] eqn:X.
    - destruct (t_opera_mini_singleton urlparse p o px X) as (r & -> & _).
      discriminate.
    - unfold t_opera_mini. rewrite X. simpl. intros [= <-].
      eapply pol_xfo_raise, X. }
  assert (TE : t_edge urlparse p o = Raise e -> exists s, urlparse s = Raise e).
  { unfold t_edge.
    destruct (pol_csp urlparse (csp p) o) as [pc|e1] eqn:C; simpl;
      [|intros [= <-]; eapply pol_csp_raise, C].
    destruct (pol_xfo urlparse (xfo p) o) as [px|e1] eqn:X; simpl;
      [|intros [= <-]; eapply pol_xfo_raise, X].
    destruct pc as [|c r]; [|discriminate].
    destruct px as [|x px]; [discriminate|].
    pose proof (pol_xfo_shape urlparse _ _ _ X) as S.
    inversion S as [|? ? Sx _]; subst.
    destruct (first_value_rule_comparable x Sx) as (r & -> & _). discriminate. }
  unfold translate.
  destruct (String.eqb b FIREFOX) eqn:E1; [intros H; right; now apply TF|].
  destruct (mem b [CHROME; SAFARI; SAFARI_IOS; SAMSUNG; UC_BROWSER]) eqn:E2;
    [intros H; right; now apply TC|].
  destruct (String.eqb b IE) eqn:E3; [intros H; right; now apply TX|].
  destruct (String.eqb b OPERA_MINI) eqn:E4; [intros H; right; now apply TO|].
  destruct (String.eqb b EDGE) eqn:E5; [intros H; right; now apply TE|].
  intros [= <-]. left. split; [|reflexivity].
  unfold mem in E2. cbn [existsb] in E2.
  repeat (apply orb_false_iff in E2 as [?C E2]).
  unfold supported, mem. cbn [existsb].
  now rewrite E1, C, C0, C1, C2, C3, E3, E4, E5.
Qed.

End Outcomes.

Section AnalyzerOutcome.

Variable urlparse : string -> exc ParseResult.

Lemma collect_raise (p : site_data) (bs : list string) (o : string)
    (s0 : semantics) (e : exn) :
  (forall b, In b bs -> In b (keys p)) ->
  collect urlparse p bs o s0 = Raise e ->
  (e = SystemExit /\ exists b, In b bs /\ supported b = false)
  \/ exists s, urlparse s = Raise e.
Proof.
  revert s0. induction bs as [|b bs IH]; intros s0 K; simpl; [discriminate|].
  destruct (getitem_keys p b (K b (or_introl eq_refl))) as (pb & ->). simpl.
  destruct (translate urlparse pb b o) as [v|e'] eqn:T; simpl.
  - intros H. destruct (IH _ (fun b' Hb => K b' (or_intror Hb)) H)
      as [(-> & b' & Hb & S)|R]; [left | now right].
    split; [reflexivity|]. exists b'. auto.
  - intros [= <-]. destruct (translate_raise urlparse pb b o e' T) as [(S & ->)|R];
      [left | now right].
    split; [reflexivity|]. exists b. auto.
Qed.

(** X22. The analyzer raises for two reasons only: [SystemExit], when a
    key of the data is not a supported User-Agent string, or an exception
    that [urlparse] raised on the page origin or inside a header value; it
    raises no [KeyError] and no [IndexError] of its own. So it returns a
    report when every key is supported and [urlparse] returns. *)
Theorem find_inconsistencies_outcome (p : site_data) (o : string) :
  (forall e, find_inconsistencies urlparse p o = Raise e ->
     (e = SystemExit /\ exists b, In b (keys p) /\ supported b = false)
     \/ exists s, urlparse s = Raise e)
  /\ ((forall s, returns (urlparse s)) ->
      (forall b, In b (keys p) -> supported b = true) ->
      returns (find_inconsistencies urlparse p o)).
Proof.
  assert (A : forall e, find_inconsistencies urlparse p o = Raise e ->
     (e = SystemExit /\ exists b, In b (keys p) /\ supported b = false)
     \/ exists s, urlparse s = Raise e).
  { intros e. unfold find_inconsistencies.
    destruct (collect _ _ _ _ _) as [c|e'] eqn:C; simpl; [discriminate|].
    intros [= <-]. apply collect_raise in C.
    - destruct C as [(-> & b & Hb & S)|R]; [left | now right].
      split; [reflexivity|]. exists b.
      split; [exact (proj1 (in_partition urlparse (keys p) b) Hb) | exact S].
    - intros b Hb. exact (proj1 (in_partition urlparse (keys p) b) Hb). }
  split; [exact A|].
  intros Hu Hs.
  destruct (find_inconsistencies urlparse p o) as [s|e] eqn:F; [now exists s|].
  destruct (A e eq_refl) as [(_ & b & Hb & S)|(s & R)].
  - rewrite (Hs b Hb) in S. discriminate.
  - destruct (Hu s) as (x & Hx). congruence.
Qed.

End AnalyzerOutcome.

(** ** Instances *)

Lemma leq_host_partial_order_witness :
  leq_host (PyStr "a.b.example.com") (PyStr "*.example.com") = Ok true.
Proof.
  destruct leq_host_partial_order as (_ & _ & T).
  exact (T (PyStr "a.b.example.com") (PyStr "*.b.example.com")
           (PyStr "*.example.com") eq_refl eq_refl).
Defined.

Lemma leq_exp_preorder_witness :
  leq_exp (ETup "https" (Some "a.b.com")) (EStr "*") = Ok true.
Proof.
  destruct leq_exp_preorder as (_ & T).
  exact (T (ETup "https" (Some "a.b.com")) (ETup "https" (Some "*.b.com"))
           (EStr "*") I I (or_introl eq_refl) eq_refl eq_refl).
Defined.

Lemma meet_lower_bound_witness :
  leq_exp (EStr "none") (ETup "https" (Some "a.com")) = Ok true
  /\ leq_exp (EStr "none") (ETup "http" (Some "a.com")) = Ok true.
Proof.
  destruct (meet_lower_bound (ETup "https" (Some "a.com"))
              (ETup "http" (Some "a.com"))) as (L & _).
  exact (proj2 (L (EStr "none") eq_refl)).
Defined.

Lemma consistent_iff_oriented_witness :
  is_sec_oriented (mk_semantics [VList [EStr "none"]] [VList [EStr "none"]]) = Ok true
  /\ is_comp_oriented (mk_semantics [VList [EStr "none"]] [VList [EStr "none"]])
     = Ok true.
Proof.
  apply (proj1 (consistent_iff_oriented
                  (mk_semantics [VList [EStr "none"]] [VList [EStr "none"]]))).
  reflexivity.
Defined.

Lemma report_needs_supported_browsers_witness :
  exists e,
    find_inconsistencies py_urlparse [("curl/8.0", mk_policies [] [])]
      "https://example.com" = Raise e.
Proof.
  apply (report_needs_supported_browsers py_urlparse
           [("curl/8.0", mk_policies [] [])] "https://example.com").
  exists "curl/8.0". split; [now left | reflexivity].
Defined.

Lemma report_buckets_witness :
  NoDup [VList [EStr "none"]] /\ NoDup [VList [EStr "none"]; VList [EStr "*"]].
Proof.
  destruct (report_buckets py_urlparse
              [(IE, mk_policies ["DENY"] []); (OPERA_MINI, mk_policies ["deny"] []);
               (EDGE, mk_policies ["DENY"] []); (CHROME, mk_policies [] ["*"]);
               (FIREFOX, mk_policies [] ["*"])]
              "https://example.com"
              (mk_semantics [VList [EStr "none"]]
                            [VList [EStr "none"]; VList [EStr "*"]])
              eq_refl) as (_ & _ & N).
  exact N.
Defined.

Lemma legacy_bucket_values_witness :
  exists e, VList [ETup "https" (Some "google.com")] = VList [e] /\ comparable e.
Proof.
  destruct (legacy_bucket_values py_urlparse
              [(IE, mk_policies ["allow-from https://google.com"] []);
               (OPERA_MINI, mk_policies ["allow-from https://google.com"] [])]
              "https://example.com"
              (mk_semantics [VList [ETup "https" (Some "google.com")];
                             VList [EStr "*"]] [])
              eq_refl) as (A & _).
  apply A. now left.
Defined.

Lemma find_inconsistencies_outcome_witness :
  (SystemExit = SystemExit
   /\ exists b, In b (keys [("curl/8.0", mk_policies [] [])])
                /\ supported b = false)
  \/ exists s, py_urlparse s = Raise SystemExit.
Proof.
  exact (proj1 (find_inconsistencies_outcome py_urlparse
                  [("curl/8.0", mk_policies [] [])] "https://example.com")
           SystemExit eq_refl).
Defined.
